(** * myTodoist: the record store (todo.c) and its persistence codec (file_io.c)

    A shallow embedding of the C sources.  Conventions:

    - a C [int] is a [Z]; where the source increments or decrements one, the
      two's-complement wrap-around of a 32-bit [int] is written out
      ([wrap_int]): ISO C leaves signed overflow undefined, this is what the
      increment of an [int] in memory does on the usual platforms;
    - the heap block [list->todos] is a [list Todo] holding every allocated
      slot, live or not; [list->count] says how many leading slots are live.
      A [Todo*] into that block is the index of the slot;
    - a [const char*] argument is [option (list byte)]: [None] is [NULL],
      [Some s] the bytes found at the pointer, read up to the first NUL (the
      end of the list counts as one);
    - [time(NULL)] is the argument [now] of the operations that call it;
    - what an operation prints is returned next to the integer it returns,
      since every failure of todo.c returns the same [-1];
    - the list pointer itself is taken to be non-NULL (main.c exits when
      [todo_list_create] fails), so the [!list] guards are not modelled. *)

From Stdlib Require Import ZArith List Lia String Sorted DecimalString.
From Stdlib Require DecimalZ.
From stdpp Require Import base option list gmap strings.
From coqutil Require Import Byte Word.LittleEndianList.

Local Open Scope Z_scope.

(** ** todo.h *)

Definition MAX_TITLE_LENGTH : Z := 100.
Definition MAX_DESC_LENGTH : Z := 500.
Definition MAX_TODOS : Z := 1000.

Definition PRIORITY_LOW : Z := 1.
Definition PRIORITY_MEDIUM : Z := 2.
Definition PRIORITY_HIGH : Z := 3.

Definition STATUS_PENDING : Z := 0.
Definition STATUS_COMPLETED : Z := 1.

(** [Priority] and [Status] are C enums: objects of those types are integers
    and nothing in the sources keeps them inside the enumerated values, so
    the fields are [Z]. *)
Record Todo := mkTodo {
  id : Z;
  title : list byte;
  description : list byte;
  priority : Z;
  status : Z;
  created_at : Z;
  updated_at : Z
}.

Record TodoList := mkTodoList {
  todos : list Todo;
  count : Z;
  capacity : Z;
  next_id : Z
}.

#[global] Instance Todo_inhabited : Inhabited Todo :=
  populate (mkTodo 0 [] [] 0 0 0 0).

(** ** C integers and strings *)

Definition INT_MIN : Z := -2147483648.
Definition INT_MAX : Z := 2147483647.

Definition wrap_int (z : Z) : Z := (z + 2147483648) mod 4294967296 - 2147483648.

Definition in_int (z : Z) : Prop := INT_MIN <= z <= INT_MAX.

Definition is_nul (b : byte) : bool := Byte.eqb b Byte.x00.

Fixpoint strlen (s : list byte) : Z :=
  match s with
  | [] => 0
  | b :: s' => if is_nul b then 0 else 1 + strlen s'
  end.

(** The [n] bytes [strncpy(dst, src, n)] stores: the string, then NULs. *)
Fixpoint strncpy_bytes (src : list byte) (n : nat) : list byte :=
  match n with
  | O => []
  | S n' =>
      match src with
      | [] => Byte.x00 :: strncpy_bytes [] n'
      | b :: src' =>
          if is_nul b then Byte.x00 :: strncpy_bytes [] n'
          else b :: strncpy_bytes src' n'
      end
  end.

Definition strncpy (dst src : list byte) (n : Z) : list byte :=
  strncpy_bytes src (Z.to_nat n) ++ drop (Z.to_nat n) dst.

(** [buf[i] = '\0'] *)
Definition set_nul (buf : list byte) (i : Z) : list byte :=
  <[Z.to_nat i := Byte.x00]> buf.

(** ** What the operations print *)

Inductive Message :=
| MsgInvalidOrFull          (* "Error: Invalid parameters or list is full" *)
| MsgTitleTooLong           (* "Error: Title too long (max 99 characters)" *)
| MsgDescTooLong            (* "Error: Description too long (max 499 characters)" *)
| MsgCreated (i : Z)        (* "Todo created successfully with ID: i" *)
| MsgNotFound (i : Z)       (* "Todo with ID i not found." *)
| MsgUpdated (i : Z)        (* "Todo with ID i updated successfully." *)
| MsgDeleted (i : Z)        (* "Todo with ID i deleted successfully." *)
| MsgAlreadyCompleted (i : Z)
| MsgCompleted (i : Z)
| MsgAlreadyPending (i : Z)
| MsgPending (i : Z).

(** The error kinds the specification gives the record store; they are
    read off the message ([error_kind] below). *)
Inductive ErrorKind := ValidationError | CapacityExceeded | NotFound.

Record Outcome := mkOutcome {
  ret : Z;
  said : Message;
  store : TodoList
}.

(** ** todo.c *)

(** [malloc] does not initialise the block it returns: its contents are the
    argument [heap], one entry per slot ([MAX_TODOS] of them in the program).
    The two allocation failures, after which main.c stops, are left out. *)
Definition todo_list_create (heap : list Todo) : TodoList :=
  {| todos := heap; count := 0; capacity := MAX_TODOS; next_id := 1 |}.

(** [list->todos[i]].  An index outside the block, which C leaves undefined
    and a well-formed store never uses, reads a default record and writes
    nothing. *)
Definition slot (l : TodoList) (i : nat) : Todo := todos l !!! i.

Definition set_slot (l : TodoList) (i : nat) (t : Todo) : TodoList :=
  {| todos := <[i := t]> (todos l); count := count l;
     capacity := capacity l; next_id := next_id l |}.

Definition todo_create (l : TodoList) (title_arg description_arg : option (list byte))
    (priority_arg : Z) (now : Z) : Outcome :=
  match title_arg with
  | None => mkOutcome (-1) MsgInvalidOrFull l
  | Some t =>
      if count l >=? capacity l then mkOutcome (-1) MsgInvalidOrFull l
      else if strlen t >=? MAX_TITLE_LENGTH then mkOutcome (-1) MsgTitleTooLong l
      else if match description_arg with
              | Some d => strlen d >=? MAX_DESC_LENGTH
              | None => false
              end
      then mkOutcome (-1) MsgDescTooLong l
      else
        let i := Z.to_nat (count l) in
        let old := slot l i in
        let new_todo :=
          {| id := next_id l;
             title := set_nul (strncpy (title old) t (MAX_TITLE_LENGTH - 1))
                              (MAX_TITLE_LENGTH - 1);
             description :=
               match description_arg with
               | Some d => set_nul (strncpy (description old) d (MAX_DESC_LENGTH - 1))
                                   (MAX_DESC_LENGTH - 1)
               | None => set_nul (description old) 0
               end;
             priority := priority_arg;
             status := STATUS_PENDING;
             created_at := now;
             updated_at := now |} in
        mkOutcome (id new_todo) (MsgCreated (id new_todo))
          {| todos := <[i := new_todo]> (todos l);
             count := wrap_int (count l + 1);
             capacity := capacity l;
             next_id := wrap_int (next_id l + 1) |}
  end.

(** The scan [for (i = 0; i < list->count; i++)] shared by
    [todo_find_by_id] and [todo_delete]: [n] iterations are left, the
    next one looks at slot [i]. *)
Fixpoint find_loop (ts : list Todo) (x : Z) (i n : nat) : option nat :=
  match n with
  | O => None
  | S n' => if id (ts !!! i) =? x then Some i else find_loop ts x (S i) n'
  end.

Definition todo_find_by_id (l : TodoList) (x : Z) : option nat :=
  find_loop (todos l) x 0 (Z.to_nat (count l)).

Definition set_title (t : Todo) (s : list byte) : Todo :=
  {| id := id t; title := s; description := description t;
     priority := priority t; status := status t;
     created_at := created_at t; updated_at := updated_at t |}.

Definition set_description (t : Todo) (s : list byte) : Todo :=
  {| id := id t; title := title t; description := s;
     priority := priority t; status := status t;
     created_at := created_at t; updated_at := updated_at t |}.

Definition set_priority (t : Todo) (p : Z) : Todo :=
  {| id := id t; title := title t; description := description t;
     priority := p; status := status t;
     created_at := created_at t; updated_at := updated_at t |}.

Definition set_status (t : Todo) (s : Z) : Todo :=
  {| id := id t; title := title t; description := description t;
     priority := priority t; status := s;
     created_at := created_at t; updated_at := updated_at t |}.

Definition set_updated_at (t : Todo) (now : Z) : Todo :=
  {| id := id t; title := title t; description := description t;
     priority := priority t; status := status t;
     created_at := created_at t; updated_at := now |}.

(** The three blocks of [todo_update], in source order.  The first two can
    leave the function with [-1]; each writes into the record when it does
    not. *)
Definition update_title (t : Todo) (title_arg : option (list byte)) : Message + Todo :=
  match title_arg with
  | None => inr t
  | Some s =>
      if strlen s >=? MAX_TITLE_LENGTH then inl MsgTitleTooLong
      else inr (set_title t (set_nul (strncpy (title t) s (MAX_TITLE_LENGTH - 1))
                                     (MAX_TITLE_LENGTH - 1)))
  end.

Definition update_description (t : Todo) (description_arg : option (list byte))
    : Message + Todo :=
  match description_arg with
  | None => inr t
  | Some s =>
      if strlen s >=? MAX_DESC_LENGTH then inl MsgDescTooLong
      else inr (set_description t
                  (set_nul (strncpy (description t) s (MAX_DESC_LENGTH - 1))
                           (MAX_DESC_LENGTH - 1)))
  end.

Definition update_priority (t : Todo) (priority_arg : Z) : Todo :=
  if (priority_arg >=? PRIORITY_LOW) && (priority_arg <=? PRIORITY_HIGH)
  then set_priority t priority_arg
  else t.

Definition todo_update (l : TodoList) (x : Z)
    (title_arg description_arg : option (list byte)) (priority_arg : Z) (now : Z)
    : Outcome :=
  match todo_find_by_id l x with
  | None => mkOutcome (-1) (MsgNotFound x) l
  | Some i =>
      match update_title (slot l i) title_arg with
      | inl m => mkOutcome (-1) m l
      | inr t1 =>
          match update_description t1 description_arg with
          | inl m => mkOutcome (-1) m (set_slot l i t1)
          | inr t2 =>
              let t3 := update_priority t2 priority_arg in
              mkOutcome 0 (MsgUpdated x) (set_slot l i (set_updated_at t3 now))
          end
      end
  end.

(** [for (i = index; i < list->count - 1; i++) todos[i] = todos[i + 1];] with
    [n] iterations left. *)
Fixpoint shift_loop (ts : list Todo) (i n : nat) : list Todo :=
  match n with
  | O => ts
  | S n' => shift_loop (<[i := ts !!! S i]> ts) (S i) n'
  end.

Definition todo_delete (l : TodoList) (x : Z) : Outcome :=
  match find_loop (todos l) x 0 (Z.to_nat (count l)) with
  | None => mkOutcome (-1) (MsgNotFound x) l
  | Some index =>
      mkOutcome 0 (MsgDeleted x)
        {| todos := shift_loop (todos l) index
                      (Z.to_nat (count l - 1 - Z.of_nat index));
           count := wrap_int (count l - 1);
           capacity := capacity l;
           next_id := next_id l |}
  end.

Definition todo_complete (l : TodoList) (x : Z) (now : Z) : Outcome :=
  match todo_find_by_id l x with
  | None => mkOutcome (-1) (MsgNotFound x) l
  | Some i =>
      if status (slot l i) =? STATUS_COMPLETED
      then mkOutcome 0 (MsgAlreadyCompleted x) l
      else mkOutcome 0 (MsgCompleted x)
             (set_slot l i (set_updated_at (set_status (slot l i) STATUS_COMPLETED) now))
  end.

Definition todo_mark_pending (l : TodoList) (x : Z) (now : Z) : Outcome :=
  match todo_find_by_id l x with
  | None => mkOutcome (-1) (MsgNotFound x) l
  | Some i =>
      if status (slot l i) =? STATUS_PENDING
      then mkOutcome 0 (MsgAlreadyPending x) l
      else mkOutcome 0 (MsgPending x)
             (set_slot l i (set_updated_at (set_status (slot l i) STATUS_PENDING) now))
  end.

(** The specification's [setStatus(id, completed)] is the pair of entry
    points main.c dispatches to. *)
Definition setStatus (l : TodoList) (x : Z) (completed : bool) (now : Z) : Outcome :=
  if completed then todo_complete l x now else todo_mark_pending l x now.

(** How the specification names the failures of the record store.  The
    first guard of [todo_create] prints one message for a NULL title and for
    a full store; whenever a title is passed it means the store is full. *)
Definition error_kind (m : Message) : option ErrorKind :=
  match m with
  | MsgInvalidOrFull => Some CapacityExceeded
  | MsgTitleTooLong | MsgDescTooLong => Some ValidationError
  | MsgNotFound _ => Some NotFound
  | _ => None
  end.

(** The live records, in storage order. *)
Definition live (l : TodoList) : list Todo := take (Z.to_nat (count l)) (todos l).

(** ** The binary layout of file_io.c

    [fwrite] and [fread] move raw memory, so the file holds the object
    representation of the header and of each [Todo].  The model fixes the
    usual LP64 little-endian one: a 4-byte two's-complement [int], enums
    stored as [int], an 8-byte [time_t], and the 4 bytes of padding the
    compiler puts before [created_at] to align it.  The program writes the
    padding as it lies in memory; here it is written as NULs, and it is
    skipped when reading: what is stated of a file concerns its length, its
    header and the fields decoded from it, never those four bytes. *)

Definition SIZEOF_INT : nat := 4.
Definition SIZEOF_TIME_T : nat := 8.
Definition SIZEOF_TODO : nat := 632.

Definition wrap_time (z : Z) : Z :=
  (z + 9223372036854775808) mod 18446744073709551616 - 9223372036854775808.

Definition in_time (z : Z) : Prop :=
  -9223372036854775808 <= z <= 9223372036854775807.

Definition encode_int (z : Z) : list byte := le_split SIZEOF_INT z.
Definition decode_int (bs : list byte) : Z := wrap_int (le_combine bs).
Definition encode_time (z : Z) : list byte := le_split SIZEOF_TIME_T z.
Definition decode_time (bs : list byte) : Z := wrap_time (le_combine bs).

(** [len] bytes at offset [off] of a block. *)
Definition field (off len : nat) (bs : list byte) : list byte :=
  take len (drop off bs).

Definition encode_todo (t : Todo) : list byte :=
  encode_int (id t) ++ title t ++ description t
  ++ encode_int (priority t) ++ encode_int (status t)
  ++ replicate 4 Byte.x00
  ++ encode_time (created_at t) ++ encode_time (updated_at t).

Definition decode_todo (bs : list byte) : Todo :=
  {| id := decode_int (field 0 4 bs);
     title := field 4 100 bs;
     description := field 104 500 bs;
     priority := decode_int (field 604 4 bs);
     status := decode_int (field 608 4 bs);
     created_at := decode_time (field 616 8 bs);
     updated_at := decode_time (field 624 8 bs) |}.

(** A record whose fields are values of their C types: it fits the
    fixed-size block. *)
Record todo_fits (t : Todo) : Prop := {
  fits_id : in_int (id t);
  fits_title : length (title t) = 100%nat;
  fits_description : length (description t) = 500%nat;
  fits_priority : in_int (priority t);
  fits_status : in_int (status t);
  fits_created_at : in_time (created_at t);
  fits_updated_at : in_time (updated_at t)
}.

(** ** file_io.c

    The file system is a finite map from paths to contents, together with
    the paths that cannot be opened for writing (missing directory,
    permissions).  The functions below are the file operations proper: the
    file system they start from is the one [ensure_data_directory] leaves,
    which is modelled with the data directory further down; a write to an
    open file does not fail. *)

Record FileSystem := mkFileSystem {
  files : gmap string (list byte);
  locked : gset string
}.

Definition DEFAULT_FILENAME : string := "data/todos.dat".

Definition file_exists (fs : FileSystem) (filename : string) : bool :=
  bool_decide (is_Some (files fs !! filename)).

(** [fopen(name, "wb")] followed by writing [content]. *)
Definition write_file (fs : FileSystem) (name : string) (content : list byte)
    : FileSystem :=
  {| files := <[name := content]> (files fs); locked := locked fs |}.

(** [snprintf(buf, size, "%s.backup", filename)] keeps [size - 1] characters. *)
Definition backup_name (filename : string) : string :=
  String.substring 0 255 (filename +:+ ".backup").

Definition create_backup (fs : FileSystem) (filename : string) : Z * FileSystem :=
  if negb (file_exists fs filename) then (-1, fs)
  else if bool_decide (backup_name filename ∈ locked fs) then (-1, fs)
  else
    (* opening the destination truncates it before the source is read *)
    let fs1 := write_file fs (backup_name filename) [] in
    let content := default [] (files fs1 !! filename) in
    (0, write_file fs1 (backup_name filename) content).

Definition save_todos_to_file (l : TodoList) (filename : option string)
    (fs : FileSystem) : Z * FileSystem :=
  let file_to_use := default DEFAULT_FILENAME filename in
  let fs1 := if file_exists fs file_to_use
             then snd (create_backup fs file_to_use) else fs in
  if bool_decide (file_to_use ∈ locked fs1) then (-1, fs1)
  else
    let header := encode_int (count l) ++ encode_int (next_id l) in
    let items :=
      if count l >? 0
      then concat (map encode_todo (take (Z.to_nat (count l)) (todos l)))
      else [] in
    (0, write_file fs1 file_to_use (header ++ items)).

(** [fread(list->todos, sizeof(Todo), n, file)]: the complete items the
    stream still holds, at most [n] of them. *)
Fixpoint fread_todos (bs : list byte) (n : nat) : list Todo :=
  match n with
  | O => []
  | S n' =>
      if (length bs <? SIZEOF_TODO)%nat then []
      else decode_todo (take SIZEOF_TODO bs) :: fread_todos (drop SIZEOF_TODO bs) n'
  end.

(** Only complete items are stored into the array; the bytes of a trailing
    partial item, whose value C leaves indeterminate, are dropped. *)
Definition load_todos_from_file (l : TodoList) (filename : option string)
    (fs : FileSystem) : Z * TodoList :=
  let file_to_use := default DEFAULT_FILENAME filename in
  if negb (file_exists fs file_to_use) then (0, l)
  else
    let bytes := default [] (files fs !! file_to_use) in
    if (length bytes <? 2 * SIZEOF_INT)%nat then (-1, l)
    else
      let saved_count := decode_int (field 0 4 bytes) in
      let saved_next_id := decode_int (field 4 4 bytes) in
      if (saved_count <? 0) || (saved_count >? MAX_TODOS) then (-1, l)
      else
        let items :=
          if saved_count >? 0
          then fread_todos (drop 8 bytes) (Z.to_nat saved_count)
          else [] in
        let stored := items ++ drop (length items) (todos l) in
        if negb (Z.of_nat (length items) =? saved_count)
        then (-1, {| todos := stored; count := count l;
                     capacity := capacity l; next_id := next_id l |})
        else (0, {| todos := stored; count := saved_count;
                    capacity := capacity l; next_id := saved_next_id |}).

(** The specification's [load(target)]: a new list, then the file read into
    it, as main.c does on start-up. *)
Definition load (heap : list Todo) (filename : option string) (fs : FileSystem)
    : Z * TodoList :=
  load_todos_from_file (todo_list_create heap) filename fs.

(** ** The data directory

    [ensure_data_directory] is the one place where the program makes a
    directory, and a new directory changes which paths can be opened.  A
    disk is a file system together with the state of "data/": it can be
    opened; or it cannot, but [mkdir] makes it, and then [locked_then] are
    the paths that cannot be opened for writing; or neither. *)

Inductive DataDirectory :=
| DirPresent
| DirCreatable (locked_then : gset string)
| DirBlocked.

Record Disk := mkDisk {
  on_disk : FileSystem;
  data_directory : DataDirectory
}.

Definition ensure_data_directory (d : Disk) : Z * Disk :=
  match data_directory d with
  | DirPresent => (0, d)
  | DirCreatable locked_then =>
      (0, mkDisk (mkFileSystem (files (on_disk d)) locked_then) DirPresent)
  | DirBlocked => (-1, d)
  end.

(** [save_todos_to_file] as a whole, on a disk: the directory step, whose
    result only prints a warning, then the file operations. *)
Definition save_todos_to_disk (l : TodoList) (filename : option string) (d : Disk)
    : Z * Disk :=
  let '(_, d1) := ensure_data_directory d in
  let '(r, fs1) := save_todos_to_file l filename (on_disk d1) in
  (r, mkDisk fs1 (data_directory d1)).

(** ** Sequences of operations *)

Inductive Op :=
| OpCreate (title_arg description_arg : option (list byte)) (priority_arg now : Z)
| OpDelete (x : Z).

Definition step (l : TodoList) (o : Op) : Outcome :=
  match o with
  | OpCreate t d p now => todo_create l t d p now
  | OpDelete x => todo_delete l x
  end.

(** The ID a successful create hands back. *)
Definition created (o : Op) (r : Outcome) : list Z :=
  match o, said r with
  | OpCreate _ _ _ _, MsgCreated _ => [ret r]
  | _, _ => []
  end.

(** Runs [ops] from [l]: the IDs handed out, oldest first, and the final
    store. *)
Fixpoint run (l : TodoList) (ops : list Op) : list Z * TodoList :=
  match ops with
  | [] => ([], l)
  | o :: ops' =>
      let r := step l o in
      let '(ids, l') := run (store r) ops' in
      (created o r ++ ids, l')
  end.

(** ** Well-formed stores

    What [todo_list_create] establishes and every operation keeps: the live
    prefix lies inside the allocated block, whose size is [capacity]. *)

Record store_ok (l : TodoList) : Prop := {
  ok_count_nonneg : 0 <= count l;
  ok_count_capacity : count l <= capacity l;
  ok_allocated : capacity l = Z.of_nat (length (todos l));
  ok_capacity_int : capacity l <= INT_MAX
}.

(** IDs are unique among the live records (the data model's first
    invariant). *)
Definition unique_ids (l : TodoList) : Prop := NoDup (map id (live l)).

(** The invariant of the record store: well-formed, every live ID below
    the counter, no ID twice. *)
Record store_inv (l : TodoList) : Prop := {
  inv_ok : store_ok l;
  inv_next_id : in_int (next_id l);
  inv_below : Forall (fun a => a < next_id l) (map id (live l));
  inv_unique : unique_ids l
}.

(** Acceptable string arguments. *)
Definition title_ok (s : list byte) : Prop := strlen s < MAX_TITLE_LENGTH.

Definition description_ok (d : option (list byte)) : Prop :=
  match d with
  | Some s => strlen s < MAX_DESC_LENGTH
  | None => True
  end.

Definition title_arg_ok (t : option (list byte)) : Prop :=
  match t with
  | Some s => title_ok s
  | None => True
  end.

Definition priority_in_range (p : Z) : Prop := PRIORITY_LOW <= p <= PRIORITY_HIGH.

(** The record a create that passes every check writes. *)
Definition created_todo (l : TodoList) (s : list byte) (d : option (list byte))
    (p now : Z) : Todo :=
  let old := slot l (Z.to_nat (count l)) in
  {| id := next_id l;
     title := set_nul (strncpy (title old) s (MAX_TITLE_LENGTH - 1))
                (MAX_TITLE_LENGTH - 1);
     description :=
       match d with
       | Some d0 => set_nul (strncpy (description old) d0 (MAX_DESC_LENGTH - 1))
                      (MAX_DESC_LENGTH - 1)
       | None => set_nul (description old) 0
       end;
     priority := p; status := STATUS_PENDING;
     created_at := now; updated_at := now |}.

(** The text a buffer holds: its bytes up to the first NUL. *)
Fixpoint c_string (buf : list byte) : list byte :=
  match buf with
  | [] => []
  | b :: buf' => if is_nul b then [] else b :: c_string buf'
  end.


(** ** Sample data for the worked instances *)

Definition text (s : string) : list byte := list_byte_of_string s.

Definition blank : Todo :=
  mkTodo 0 (replicate 100 Byte.x00) (replicate 500 Byte.x00) 0 0 0 0.

Definition heap0 : list Todo := replicate (Z.to_nat MAX_TODOS) blank.

Definition fresh0 : TodoList := todo_list_create heap0.

Definition sample1 : TodoList :=
  store (todo_create fresh0 (Some (text "Buy milk")) None PRIORITY_MEDIUM 1000).

Definition sample2 : TodoList :=
  store (todo_create sample1 (Some (text "Call dentist")) (Some (text "Follow-up"))
           PRIORITY_HIGH 1001).

(** [n] rounds of create-then-delete; the deletes name the IDs [first],
    [first + 1], ... that the creates are handed when the counter starts at
    [first]. *)
Fixpoint churn (first : Z) (n : nat) : list Op :=
  match n with
  | O => []
  | S n' =>
      OpCreate (Some (text "again")) None PRIORITY_LOW 0
        :: OpDelete first :: churn (first + 1) n'
  end.

Definition fs0 : FileSystem := mkFileSystem ∅ ∅.


(** The scenario of the specification: two creates, the first record
    deleted, one more create. *)
Definition scenario : list Op :=
  [ OpCreate (Some (text "Buy milk")) (Some []) PRIORITY_MEDIUM 1000;
    OpCreate (Some (text "Call dentist")) (Some (text "Follow-up")) PRIORITY_HIGH 1001;
    OpDelete 1;
    OpCreate (Some (text "Water plants")) None PRIORITY_LOW 1002 ].

(** A store filled to capacity by [MAX_TODOS] creates. *)
Definition full0 : TodoList :=
  Nat.iter (Z.to_nat MAX_TODOS)
    (fun l => store (todo_create l (Some (text "chore")) None PRIORITY_LOW 500))
    fresh0.


(** ** Every mutating call of todo.c *)

Inductive Call :=
| CallCreate (title_arg description_arg : option (list byte)) (priority_arg now : Z)
| CallUpdate (x : Z) (title_arg description_arg : option (list byte))
    (priority_arg now : Z)
| CallDelete (x : Z)
| CallComplete (x now : Z)
| CallMarkPending (x now : Z).

Definition call (l : TodoList) (c : Call) : Outcome :=
  match c with
  | CallCreate t d p now => todo_create l t d p now
  | CallUpdate x t d p now => todo_update l x t d p now
  | CallDelete x => todo_delete l x
  | CallComplete x now => todo_complete l x now
  | CallMarkPending x now => todo_mark_pending l x now
  end.

(** The store after the calls [cs], made in order. *)
Fixpoint calls (l : TodoList) (cs : list Call) : TodoList :=
  match cs with
  | [] => l
  | c :: cs' => calls (store (call l c)) cs'
  end.

(** The scalars a call passes are values of their C types. *)
Definition call_fits (c : Call) : Prop :=
  match c with
  | CallCreate _ _ p now | CallUpdate _ _ _ p now => in_int p /\ in_time now
  | CallDelete _ => True
  | CallComplete _ now | CallMarkPending _ now => in_time now
  end.

(** The strings a record holds end inside their buffers. *)
Record strings_bounded (t : Todo) : Prop := {
  bounded_title : strlen (title t) < MAX_TITLE_LENGTH;
  bounded_description : strlen (description t) < MAX_DESC_LENGTH
}.

(** ** The display helpers of todo.c *)

Definition get_priority_string (p : Z) : string :=
  match p with
  | 1 => "Low"
  | 2 => "Medium"
  | 3 => "High"
  | _ => "Unknown"
  end.

Definition get_status_string (s : Z) : string :=
  match s with
  | 0 => "Pending"
  | 1 => "Completed"
  | _ => "Unknown"
  end.

(** [printf("%d", z)], and the text of a terminated buffer. *)
Definition show_int (z : Z) : string := NilZero.string_of_int (Z.to_int z).
Definition show_buf (buf : list byte) : string := string_of_list_byte (c_string buf).

(** ** What is printed

    A function that prints has its lines as result, one per ["\n"] of a
    format.  Where C leaves the behaviour undefined there is no result
    ([None]): a character array without terminator printed with ["%s"], a
    NULL handed on to [strftime] or [strcpy], a copy that overruns its
    buffer, a buffer printed whose contents are indeterminate. *)

(** The array holds a terminator. *)
Definition terminated (buf : list byte) : Prop := strlen buf < Z.of_nat (length buf).

(** [printf("%s", buf)] for a character array of the record. *)
Definition show_field (buf : list byte) : option string :=
  if strlen buf <? Z.of_nat (length buf) then Some (show_buf buf) else None.

(** [printf("%s", todo->description[0] ? todo->description : "(No description)")] *)
Definition show_description (buf : list byte) : option string :=
  if strlen buf =? 0 then Some "(No description)"%string else show_field buf.

(** The text [convert] gives for the time stamp [t] fits a buffer of [size]
    bytes with its terminator. *)
Definition stamp_fits (convert : Z -> option string) (size : nat) (t : Z) : Prop :=
  exists s, convert t = Some s /\ (String.length s < size)%nat.

(** [strftime(buf, size, format, localtime(&t))], then [buf] printed.  What
    the conversion gives under the local time zone is the argument
    [strftime_local], applied to the format and the stamp: the text in full,
    or [None] when [localtime] returns NULL, which is handed on unchecked.
    When the text does not fit [size] bytes with its terminator, [strftime]
    returns 0 and leaves [buf] indeterminate. *)
Definition strftime_into (strftime_local : string -> Z -> option string)
    (size : nat) (format : string) (t : Z) : option string :=
  match strftime_local format t with
  | Some s => if (String.length s <? size)%nat then Some s else None
  | None => None
  end.

(** ["%-Ns"]: the text, then spaces up to the width. *)
Fixpoint spaces (n : nat) : string :=
  match n with
  | O => ""
  | S n' => " " +:+ spaces n'
  end.

Definition left_justified (width : nat) (s : string) : string :=
  s +:+ spaces (width - String.length s).

(** ["%-4s | %-20s | %-10s | %-8s | %-19s | %-19s"] *)
Definition read_all_columns (c1 c2 c3 c4 c5 c6 : string) : string :=
  left_justified 4 c1 +:+ " | " +:+ left_justified 20 c2 +:+ " | "
  +:+ left_justified 10 c3 +:+ " | " +:+ left_justified 8 c4 +:+ " | "
  +:+ left_justified 19 c5 +:+ " | " +:+ left_justified 19 c6.

(** One pass of the loop of [todo_read_all]; ["%-20.20s"] reads at most 20
    bytes of the title. *)
Definition read_all_row (strftime_local : string -> Z -> option string)
    (todo : Todo) : option string :=
  match strftime_into strftime_local 20 "%Y-%m-%d %H:%M" (created_at todo),
        strftime_into strftime_local 20 "%Y-%m-%d %H:%M" (updated_at todo) with
  | Some created_str, Some updated_str =>
      Some (read_all_columns (show_int (id todo))
              (string_of_list_byte (take 20 (c_string (title todo))))
              (get_priority_string (priority todo))
              (get_status_string (status todo))
              created_str updated_str)
  | _, _ => None
  end.

Definition todo_read_all (strftime_local : string -> Z -> option string)
    (l : TodoList) : option (list string) :=
  if count l =? 0 then Some ["No todos found."%string]
  else
    match mapM (read_all_row strftime_local) (live l) with
    | Some rows =>
        Some ([ ""; "=== TODO LIST ===";
                read_all_columns "ID" "Title" "Priority" "Status" "Created" "Updated";
                "-----|----------------------|------------|----------|---------------------|---------------------" ]
              ++ rows
              ++ [ ""; "Total todos: " +:+ show_int (count l) ])
    | None => None
    end.


(** The record can be listed by [todo_read_all], and shown by
    [todo_read_by_id]. *)
Record listed (strftime_local : string -> Z -> option string) (t : Todo) : Prop := {
  listed_created : stamp_fits (strftime_local "%Y-%m-%d %H:%M") 20 (created_at t);
  listed_updated : stamp_fits (strftime_local "%Y-%m-%d %H:%M") 20 (updated_at t)
}.


(** ** [export_todos_to_text] (file_io.c)

    [ctime] is an argument, as [strftime_local] above: [None] is the NULL it
    returns for a time stamp it cannot convert. *)

(** [strcpy(created_str, ctime(&t)); created_str[24] = '\0';] with
    [char created_str[26]], then [created_str] printed. *)
Definition ctime_into (ctime : Z -> option string) (t : Z) : option string :=
  match ctime t with
  | Some s => if (String.length s <? 26)%nat then Some (String.substring 0 24 s) else None
  | None => None
  end.

Definition export_block (ctime : Z -> option string) (todo : Todo)
    : option (list string) :=
  match ctime_into ctime (created_at todo), ctime_into ctime (updated_at todo),
        show_field (title todo), show_description (description todo) with
  | Some created_str, Some updated_str, Some title_str, Some description_str =>
      Some [ "--- Todo #" +:+ show_int (id todo) +:+ " ---";
             "Title: " +:+ title_str;
             "Description: " +:+ description_str;
             "Priority: " +:+ get_priority_string (priority todo);
             "Status: " +:+ get_status_string (status todo);
             "Created: " +:+ created_str;
             "Updated: " +:+ updated_str;
             "" ]
  | _, _, _, _ => None
  end.

(** The lines written to the file; [now] is [time(NULL)]. *)
Definition export_lines (ctime : Z -> option string) (l : TodoList) (now : Z)
    : option (list string) :=
  match ctime now with
  | Some export_date =>
      match (if count l =? 0 then Some [["No todos found."%string]]
             else mapM (export_block ctime) (live l)) with
      | Some blocks =>
          Some ([ "=== TODO LIST EXPORT ===";
                  "Export Date: " +:+ export_date;
                  "Total Todos: " +:+ show_int (count l);
                  "" ]
                ++ concat blocks)
      | None => None
      end
  | None => None
  end.

(** Each line is written with its ["\n"]. *)
Definition lines_to_bytes (ls : list string) : list byte :=
  concat (map (fun s => list_byte_of_string s ++ [Byte.x0a]) ls).

(** The directory step is made for a target under "data/"
    ([strncmp(filename, "data/", 5) == 0]). *)
Definition export_todos_to_text (ctime : Z -> option string) (l : TodoList)
    (filename : option string) (now : Z) (d : Disk) : option (Z * Disk) :=
  match filename with
  | None => Some (-1, d)
  | Some f =>
      let d1 := if String.prefix "data/" f then (ensure_data_directory d).2 else d in
      if bool_decide (f ∈ locked (on_disk d1)) then Some (-1, d1)
      else
        match export_lines ctime l now with
        | Some ls =>
            Some (0, mkDisk (write_file (on_disk d1) f (lines_to_bytes ls))
                            (data_directory d1))
        | None => None
        end
  end.

(** The record can be exported. *)
Record exported (ctime : Z -> option string) (t : Todo) : Prop := {
  exported_created : stamp_fits ctime 26 (created_at t);
  exported_updated : stamp_fits ctime 26 (updated_at t);
  exported_title : terminated (title t);
  exported_description : terminated (description t)
}.



(** The status is one of the two values of the enum. *)
Definition status_known (t : Todo) : Prop :=
  status t = STATUS_PENDING \/ status t = STATUS_COMPLETED.

(** ** The input layer of main.c

    [stdin] is the list of bytes not yet read; a function that reads returns
    what is left of it.  A buffer filled by [fgets] is the list of bytes read,
    its terminating NUL being the end of the list.  The prompts and messages
    these functions print are left out. *)

Definition is_newline (b : byte) : bool := Byte.eqb b Byte.x0a.

(** The characters [fgets] stores when [n] more fit: up to and including
    the first newline. *)
Fixpoint fgets_chars (n : nat) (stdin : list byte) : list byte * list byte :=
  match n, stdin with
  | O, _ => ([], stdin)
  | _, [] => ([], [])
  | S n', b :: rest =>
      if is_newline b then ([b], rest)
      else let '(line, rest') := fgets_chars n' rest in (b :: line, rest')
  end.

(** [fgets(buffer, size, stdin)]: [None] is the NULL returned at end of
    input. *)
Definition fgets (size : Z) (stdin : list byte) : option (list byte * list byte) :=
  match stdin with
  | [] => None
  | _ => Some (fgets_chars (Z.to_nat (size - 1)) stdin)
  end.

(** [newline = strchr(buffer, '\n'); if (newline) *newline = '\0';] *)
Fixpoint strip_newline (buffer : list byte) : list byte :=
  match buffer with
  | [] => []
  | b :: buffer' =>
      if is_nul b then buffer
      else if is_newline b then Byte.x00 :: buffer'
      else b :: strip_newline buffer'
  end.

(** [get_string_input], with [n] attempts left. *)
Fixpoint get_string_input_loop (n : nat) (max_length : Z) (stdin : list byte)
    : list byte * list byte :=
  match n with
  | O => (text "Default", stdin)
  | S n' =>
      match fgets max_length stdin with
      | Some (line, rest) =>
          let buffer := strip_newline line in
          if strlen buffer >? 0 then (buffer, rest)
          else get_string_input_loop n' max_length rest
      | None => (text "Default", stdin)
      end
  end.

Definition get_string_input (max_length : Z) (stdin : list byte)
    : list byte * list byte :=
  get_string_input_loop 5 max_length stdin.

(** [strtol(nptr, &endptr, 10)] as the C library specifies it, for a 64-bit
    [long]: white space, an optional sign, decimal digits; a value out of
    range is replaced by [LONG_MAX] or [LONG_MIN].  The second component is
    what [endptr] points at, [None] when nothing was converted
    ([endptr == nptr]). *)
Definition LONG_MIN : Z := -9223372036854775808.
Definition LONG_MAX : Z := 9223372036854775807.

Definition clamp_long (z : Z) : Z := Z.max LONG_MIN (Z.min LONG_MAX z).

Definition is_space (b : byte) : bool :=
  Byte.eqb b Byte.x20 || Byte.eqb b Byte.x09 || Byte.eqb b Byte.x0a
  || Byte.eqb b Byte.x0b || Byte.eqb b Byte.x0c || Byte.eqb b Byte.x0d.

Definition is_digit (b : byte) : bool :=
  (48 <=? byte.unsigned b) && (byte.unsigned b <=? 57).

Fixpoint skip_spaces (s : list byte) : list byte :=
  match s with
  | b :: s' => if is_space b then skip_spaces s' else s
  | [] => []
  end.

Fixpoint read_digits (s : list byte) (acc : Z) : Z * list byte :=
  match s with
  | b :: s' =>
      if is_digit b then read_digits s' (10 * acc + (byte.unsigned b - 48))
      else (acc, s)
  | [] => (acc, [])
  end.

Definition strtol (nptr : list byte) : Z * option (list byte) :=
  let s := skip_spaces nptr in
  let '(negative, s1) :=
    match s with
    | b :: s' =>
        if Byte.eqb b Byte.x2d then (true, s')
        else if Byte.eqb b Byte.x2b then (false, s')
        else (false, s)
    | [] => (false, [])
    end in
  match s1 with
  | b :: _ =>
      if is_digit b then
        let '(v, rest) := read_digits s1 0 in
        (clamp_long (if negative then - v else v), Some rest)
      else (0, None)
  | [] => (0, None)
  end.

(** [*endptr == '\n' || *endptr == '\0'] *)
Definition at_line_end (endptr : list byte) : bool :=
  match endptr with
  | [] => true
  | b :: _ => is_newline b || is_nul b
  end.

(** [get_integer_input], with [n] attempts left; the [long] is stored into
    an [int]. *)
Fixpoint get_integer_input_loop (n : nat) (stdin : list byte) : Z * list byte :=
  match n with
  | O => (0, stdin)
  | S n' =>
      match fgets 100 stdin with
      | Some (buffer, rest) =>
          match strtol buffer with
          | (value, Some endptr) =>
              if at_line_end endptr then (wrap_int value, rest)
              else get_integer_input_loop n' rest
          | (_, None) => get_integer_input_loop n' rest
          end
      | None => (-1, stdin)
      end
  end.

Definition get_integer_input (stdin : list byte) : Z * list byte :=
  get_integer_input_loop 10 stdin.

(** [get_priority_input], with [n] attempts left. *)
Fixpoint get_priority_input_loop (n : nat) (stdin : list byte) : Z * list byte :=
  match n with
  | O => (PRIORITY_MEDIUM, stdin)
  | S n' =>
      let '(choice, rest) := get_integer_input stdin in
      if choice =? -1 then (PRIORITY_MEDIUM, rest)
      else if (choice >=? 1) && (choice <=? 3) then (choice, rest)
      else get_priority_input_loop n' rest
  end.

Definition get_priority_input (stdin : list byte) : Z * list byte :=
  get_priority_input_loop 5 stdin.

(** [handle_create_todo].  When [fgets] meets the end of input the
    description buffer is never written: [uninit] is what it then holds. *)
Definition handle_create_todo (l : TodoList) (stdin : list byte) (now : Z)
    (uninit : list byte) : Outcome * list byte :=
  let '(title_buf, s1) := get_string_input MAX_TITLE_LENGTH stdin in
  let '(description_buf, s2) :=
    match fgets MAX_DESC_LENGTH s1 with
    | Some (line, rest) => (strip_newline line, rest)
    | None => (uninit, s1)
    end in
  let '(priority_arg, s3) := get_priority_input s2 in
  (todo_create l (Some title_buf)
     (if strlen description_buf =? 0 then None else Some description_buf)
     priority_arg now,
   s3).

(** What a handler of main.c did.  The handlers return nothing, so the
    result says which way was taken. *)
Inductive Handled :=
| NothingToDo            (* count == 0: "No todos available ..." *)
| UnknownId (x : Z)      (* "Todo with ID x not found.", printed by the handler *)
| Called (o : Outcome).  (* the call into todo.c and what it gave *)

(** [fgets(input, sizeof(input), stdin);] with the result ignored: at the
    end of input the buffer keeps what it held.  Only [input[0]] is read
    afterwards, so the bytes behind the line are left out. *)
Definition fgets_into (input : list byte) (size : Z) (stdin : list byte)
    : list byte * list byte :=
  match fgets size stdin with
  | Some (line, rest) => (line, rest)
  | None => (input, stdin)
  end.

(** [input[0] == 'y' || input[0] == 'Y'] *)
Definition answered_yes (input : list byte) : bool :=
  match input with
  | b :: _ => Byte.eqb b Byte.x79 || Byte.eqb b Byte.x59
  | [] => false
  end.

(** [handle_update_todo]; [input0] is what the uninitialised [input]
    buffer holds.  The list is printed first, by [todo_read_all]. *)
Definition handle_update_todo (strftime_local : string -> Z -> option string)
    (l : TodoList) (stdin : list byte) (now : Z) (input0 : list byte)
    : option (Handled * list byte) :=
  if count l =? 0 then Some (NothingToDo, stdin)
  else
    match todo_read_all strftime_local l with
    | None => None
    | Some _ =>
        let '(x, s1) := get_integer_input stdin in
        match todo_find_by_id l x with
        | None => Some (UnknownId x, s1)
        | Some _ =>
            let '(input1, s2) := fgets_into input0 10 s1 in
            let '(new_title, s3) :=
              if answered_yes input1 then
                let '(title_buf, s) := get_string_input MAX_TITLE_LENGTH s2 in
                (Some title_buf, s)
              else (None, s2) in
            let '(input2, s4) := fgets_into input1 10 s3 in
            let '(new_description, s5) :=
              if answered_yes input2 then
                match fgets MAX_DESC_LENGTH s4 with
                | Some (line, rest) => (Some (strip_newline line), rest)
                | None => (None, s4)
                end
              else (None, s4) in
            let '(input3, s6) := fgets_into input2 10 s5 in
            let '(new_priority, s7) :=
              if answered_yes input3 then get_priority_input s6 else (-1, s6) in
            Some (Called (todo_update l x new_title new_description new_priority now),
                  s7)
        end
    end.

(** The decimal text of [z] typed as one line. *)
Definition typed_line (s : string) : list byte := list_byte_of_string s ++ [Byte.x0a].

(** A line of text as it is typed: no NUL and no newline inside. *)
Definition plain_text (s : list byte) : Prop :=
  Forall (fun b => is_nul b = false /\ is_newline b = false) s.

(** Numbers typed one per line. *)
Definition typed_numbers (ws : list Z) : list byte :=
  concat (map (fun w => typed_line (show_int w)) ws).

(** A number typed on a line of the input buffer that [get_priority_input]
    turns down: an [int] that is neither a priority nor -1. *)
Record wrong_priority (w : Z) : Prop := {
  wrong_int : in_int w;
  wrong_not_eof : w <> -1;
  wrong_range : ~ priority_in_range w;
  wrong_line : Z.of_nat (length (typed_line (show_int w))) < 100
}.

(** A clock that shows every time stamp alike, and a disk without the data
    directory, which can be made. *)
Definition strftime0 : string -> Z -> option string :=
  fun _ _ => Some "2025-09-21 10:00"%string.

Definition ctime0 : Z -> option string :=
  fun _ => Some "Sun Sep 21 10:00:00 2025"%string.

Definition disk0 : Disk := mkDisk fs0 (DirCreatable ∅).

(** A sequence that uses every call. *)
Definition busy_day : list Call :=
  [ CallCreate (Some (text "Buy milk")) None PRIORITY_MEDIUM 1000;
    CallCreate (Some (text "Call dentist")) (Some (text "Follow-up")) PRIORITY_HIGH 1001;
    CallComplete 1 1002;
    CallUpdate 2 (Some (text "Ring dentist")) None 0 1003;
    CallDelete 1;
    CallCreate (Some (text "Water plants")) None PRIORITY_LOW 1004;
    CallMarkPending 3 1005 ].

(** * Properties *)

(** Bounds of the C types, after unfolding the constants. *)
Ltac c_bounds :=
  unfold in_int, in_time, title_ok, INT_MIN, INT_MAX, MAX_TODOS,
    MAX_TITLE_LENGTH, MAX_DESC_LENGTH in *; lia.

(** Evaluates a closed fact about the sample data. *)
Ltac by_evaluation :=
  vm_compute; repeat split; first [reflexivity | congruence | exact I].

(** ** C integers *)

Lemma wrap_int_id z : in_int z -> wrap_int z = z.
Proof. intros H. unfold wrap_int. rewrite Z.mod_small; c_bounds. Qed.

Lemma wrap_int_range z : in_int (wrap_int z).
Proof.
  unfold wrap_int.
  pose proof (Z.mod_pos_bound (z + 2147483648) 4294967296). c_bounds.
Qed.

Lemma wrap_int_add_l a b : wrap_int (wrap_int a + b) = wrap_int (a + b).
Proof.
  unfold wrap_int.
  replace ((a + 2147483648) mod 4294967296 - 2147483648 + b + 2147483648)
    with ((a + 2147483648) mod 4294967296 + b) by lia.
  rewrite Zplus_mod_idemp_l. f_equal. f_equal. lia.
Qed.

Lemma wrap_time_id z : in_time z -> wrap_time z = z.
Proof. intros H. unfold wrap_time. rewrite Z.mod_small; c_bounds. Qed.

Example wrap_int_past_max : wrap_int (INT_MAX + 1) = INT_MIN.
Proof. reflexivity. Qed.

Example wrap_int_before_min : wrap_int (INT_MIN - 1) = INT_MAX.
Proof. reflexivity. Qed.

(** ** C strings *)

Lemma strlen_nonneg s : 0 <= strlen s.
Proof. induction s as [|b s IH]; simpl; [lia|]. destruct (is_nul b); lia. Qed.

Lemma strlen_c_string s : strlen s = Z.of_nat (length (c_string s)).
Proof.
  induction s as [|b s IH]; simpl; [reflexivity|].
  destruct (is_nul b); simpl; lia.
Qed.

Lemma length_strncpy_bytes n : forall s, length (strncpy_bytes s n) = n.
Proof.
  induction n as [|n IH]; intros s; simpl; [reflexivity|].
  destruct s as [|b s]; simpl; [by rewrite IH|].
  destruct (is_nul b); simpl; by rewrite IH.
Qed.

Lemma length_strncpy dst src n :
  (Z.to_nat n <= length dst)%nat -> length (strncpy dst src n) = length dst.
Proof.
  intros H. unfold strncpy.
  rewrite length_app, length_strncpy_bytes, length_drop. lia.
Qed.

Lemma length_set_nul buf i : length (set_nul buf i) = length buf.
Proof. apply length_insert. Qed.

(** A string of at most [n] bytes is found again in what [strncpy] stored
    once the byte after those [n] is set to NUL. *)
Lemma c_string_strncpy_bytes n : forall s rest,
  strlen s <= Z.of_nat n ->
  c_string (strncpy_bytes s n ++ <[0%nat := Byte.x00]> rest) = c_string s.
Proof.
  induction n as [|n IH]; intros s rest H.
  - pose proof (strlen_nonneg s).
    destruct s as [|b s]; simpl in *.
    + by destruct rest.
    + destruct (is_nul b); [by destruct rest|]. pose proof (strlen_nonneg s). lia.
  - destruct s as [|b s]; simpl; [reflexivity|].
    simpl in H. destruct (is_nul b) eqn:E; simpl.
    + reflexivity.
    + rewrite E. f_equal. apply IH. lia.
Qed.

Lemma c_string_stored buf s n :
  0 <= n -> strlen s <= n ->
  c_string (set_nul (strncpy buf s n) n) = c_string s.
Proof.
  intros Hn H. unfold set_nul, strncpy.
  rewrite insert_app_r_alt by (rewrite length_strncpy_bytes; lia).
  rewrite length_strncpy_bytes, Nat.sub_diag.
  apply c_string_strncpy_bytes. lia.
Qed.

Lemma c_string_empty s : strlen s = 0 -> c_string s = [].
Proof.
  destruct s as [|b s]; simpl; [reflexivity|].
  destruct (is_nul b); [reflexivity|]. pose proof (strlen_nonneg s). lia.
Qed.

Example strncpy_pads_with_nul :
  strncpy (text "????????") (text "ab") 5 =
  [Byte.x61; Byte.x62; Byte.x00; Byte.x00; Byte.x00; Byte.x3f; Byte.x3f; Byte.x3f].
Proof. reflexivity. Qed.

Example strlen_stops_at_nul : strlen (text "ab" ++ Byte.x00 :: text "cd") = 2.
Proof. reflexivity. Qed.

(** ** The linear scan *)

Lemma find_loop_Some ts x n : forall i j,
  find_loop ts x i n = Some j ->
  (i <= j < i + n)%nat /\ id (ts !!! j) = x /\
  forall k, (i <= k < j)%nat -> id (ts !!! k) <> x.
Proof.
  induction n as [|n IH]; intros i j; simpl; [discriminate|].
  destruct (Z.eqb_spec (id (ts !!! i)) x) as [E|E].
  - intros [= <-]. repeat split; intros; lia.
  - intros H. apply IH in H as (Hr & Hx & Hk).
    split; [lia|]. split; [exact Hx|].
    intros k Hik. destruct (decide (k = i)) as [->|]; [exact E|].
    apply Hk. lia.
Qed.

Lemma find_loop_None ts x n : forall i,
  find_loop ts x i n = None <->
  forall k, (i <= k < i + n)%nat -> id (ts !!! k) <> x.
Proof.
  induction n as [|n IH]; intros i; simpl.
  - split; [intros _ k Hk; lia | reflexivity].
  - destruct (Z.eqb_spec (id (ts !!! i)) x) as [E|E].
    + split; [discriminate|]. intros H. exfalso. apply (H i); [lia | exact E].
    + rewrite IH. split; intros H k Hk.
      * destruct (decide (k = i)) as [->|]; [exact E|]. apply H. lia.
      * apply H. lia.
Qed.

Lemma find_by_id_lt l x i :
  todo_find_by_id l x = Some i -> (i < Z.to_nat (count l))%nat.
Proof. intros H. apply find_loop_Some in H. lia. Qed.

Lemma find_by_id_id l x i : todo_find_by_id l x = Some i -> id (slot l i) = x.
Proof. intros H. apply find_loop_Some in H. tauto. Qed.

Lemma find_by_id_first l x i k :
  todo_find_by_id l x = Some i -> (k < i)%nat -> id (slot l k) <> x.
Proof. intros H Hk. apply find_loop_Some in H as (_ & _ & H). apply H. lia. Qed.

Lemma find_by_id_allocated l x i :
  store_ok l -> todo_find_by_id l x = Some i -> (i < length (todos l))%nat.
Proof.
  intros [H0 H1 H2 _] H. apply find_by_id_lt in H. lia.
Qed.

Lemma live_lookup l i :
  store_ok l -> (i < Z.to_nat (count l))%nat -> live l !! i = Some (slot l i).
Proof.
  intros [H0 H1 H2 _] H. unfold live, slot. rewrite lookup_take_lt by lia.
  apply list_lookup_lookup_total_lt. lia.
Qed.

Lemma length_live l : store_ok l -> Z.of_nat (length (live l)) = count l.
Proof. intros [H0 H1 H2 _]. unfold live. rewrite length_take. lia. Qed.

(** [findById] answers exactly when some live record carries the ID. *)
Lemma find_by_id_is_Some l x :
  store_ok l ->
  is_Some (todo_find_by_id l x) <-> exists t, t ∈ live l /\ id t = x.
Proof.
  intros Hok. split.
  - intros [i H]. exists (slot l i). split; [|eapply find_by_id_id; eauto].
    apply list_elem_of_lookup. exists i.
    apply live_lookup; [done|]. by eapply find_by_id_lt.
  - intros (t & Hin & Hid). apply list_elem_of_lookup in Hin as [k Hk].
    unfold live in Hk. apply lookup_take_Some in Hk as [Hk Hlt].
    destruct (todo_find_by_id l x) eqn:E; [eauto|].
    exfalso. unfold todo_find_by_id in E.
    apply (proj1 (find_loop_None _ _ _ _) E k); [lia|].
    rewrite (list_lookup_total_correct _ _ _ Hk). exact Hid.
Qed.

Lemma slot_set_slot_eq l i t :
  (i < length (todos l))%nat -> slot (set_slot l i t) i = t.
Proof. intros H. unfold slot, set_slot; simpl. by apply list_lookup_total_insert_eq. Qed.

Lemma slot_set_slot_ne l i j t : i <> j -> slot (set_slot l i t) j = slot l j.
Proof. intros H. unfold slot, set_slot; simpl. by apply list_lookup_total_insert_ne. Qed.

Lemma set_slot_ok l i t : store_ok l -> store_ok (set_slot l i t).
Proof.
  intros [H0 H1 H2 H3]. split; unfold set_slot; cbn [todos count capacity]; try done.
  by rewrite length_insert.
Qed.

(** ** Operations on a record the store holds *)

Lemma update_priority_out t p : ~ priority_in_range p -> update_priority t p = t.
Proof.
  unfold priority_in_range, update_priority. intros H.
  destruct (Z.geb_spec p PRIORITY_LOW), (Z.leb_spec p PRIORITY_HIGH);
    simpl; try reflexivity. lia.
Qed.

Lemma update_priority_in t p :
  priority_in_range p -> update_priority t p = set_priority t p.
Proof.
  unfold priority_in_range, update_priority. intros H.
  destruct (Z.geb_spec p PRIORITY_LOW), (Z.leb_spec p PRIORITY_HIGH);
    simpl; try reflexivity; lia.
Qed.

Lemma update_title_priority t a m : update_title t a = inr m -> priority m = priority t.
Proof.
  unfold update_title. destruct a as [s|]; [|by intros [= <-]].
  destruct (strlen s >=? MAX_TITLE_LENGTH); [discriminate|]. by intros [= <-].
Qed.

Lemma update_description_priority t a m :
  update_description t a = inr m -> priority m = priority t.
Proof.
  unfold update_description. destruct a as [s|]; [|by intros [= <-]].
  destruct (strlen s >=? MAX_DESC_LENGTH); [discriminate|]. by intros [= <-].
Qed.

Lemma update_title_ok t a : title_arg_ok a -> exists m, update_title t a = inr m.
Proof.
  unfold title_arg_ok, title_ok, update_title. destruct a as [s|]; [|eauto].
  intros H. destruct (Z.geb_spec (strlen s) MAX_TITLE_LENGTH); [lia|eauto].
Qed.

Lemma update_title_bad t a :
  ~ title_arg_ok a -> update_title t a = inl MsgTitleTooLong.
Proof.
  unfold title_arg_ok, title_ok, update_title. destruct a as [s|]; [|tauto].
  intros H. destruct (Z.geb_spec (strlen s) MAX_TITLE_LENGTH); [done|lia].
Qed.

Lemma update_description_ok t a :
  description_ok a -> exists m, update_description t a = inr m.
Proof.
  unfold description_ok, update_description. destruct a as [s|]; [|eauto].
  intros H. destruct (Z.geb_spec (strlen s) MAX_DESC_LENGTH); [lia|eauto].
Qed.

Lemma update_description_bad t a :
  ~ description_ok a -> update_description t a = inl MsgDescTooLong.
Proof.
  unfold description_ok, update_description. destruct a as [s|]; [|tauto].
  intros H. destruct (Z.geb_spec (strlen s) MAX_DESC_LENGTH); [done|lia].
Qed.

Section Found.
(** A well-formed store [l] in which [findById] finds [x] in slot [i]. *)
Variables (l : TodoList) (x : Z) (i : nat).
Hypothesis Hok : store_ok l.
Hypothesis Hfind : todo_find_by_id l x = Some i.

Let Hlen : (i < length (todos l))%nat := find_by_id_allocated l x i Hok Hfind.

(** C10: an update that asks for nothing (no title, no description, a
    priority outside Low..High) on a store holding the ID still succeeds
    and stamps the record with the current time; every other field of the
    record, every other slot and the counters stay as they were. *)
Theorem C10_update_without_change_refreshes_updated_at p now :
  ~ priority_in_range p ->
  let r := todo_update l x None None p now in
  let before := slot l i in
  let after := slot (store r) i in
  ret r = 0 /\ said r = MsgUpdated x /\
  updated_at after = now /\
  id after = id before /\ title after = title before /\
  description after = description before /\ priority after = priority before /\
  status after = status before /\ created_at after = created_at before /\
  (forall j, j <> i -> todos (store r) !! j = todos l !! j) /\
  length (todos (store r)) = length (todos l) /\
  count (store r) = count l /\ capacity (store r) = capacity l /\
  next_id (store r) = next_id l.
Proof.
  intros Hp. unfold todo_update. rewrite Hfind.
  cbn [update_title update_description].
  rewrite update_priority_out by exact Hp. cbn [ret said store].
  rewrite slot_set_slot_eq by exact Hlen.
  repeat split; try reflexivity.
  - intros j Hj. unfold set_slot; simpl. by apply list_lookup_insert_ne.
  - unfold set_slot; simpl. apply length_insert.
Qed.

(** C8: with a priority outside Low..High the record's priority is left
    as it was whatever the other arguments are; when the title and
    description pass (or are absent) the call succeeds, whereas an
    over-length title or description is turned down with a validation
    error. *)
Theorem C8_update_ignores_priority_out_of_range t d p now :
  ~ priority_in_range p ->
  let r := todo_update l x t d p now in
  priority (slot (store r) i) = priority (slot l i) /\
  (title_arg_ok t -> description_ok d -> ret r = 0 /\ said r = MsgUpdated x) /\
  (~ title_arg_ok t \/ ~ description_ok d ->
   ret r = -1 /\ error_kind (said r) = Some ValidationError).
Proof.
  intros Hp. unfold todo_update. rewrite Hfind.
  destruct (update_title (slot l i) t) as [m|t1] eqn:Et.
  { cbn [ret said store]. split; [reflexivity|]. split.
    - intros Ht _. destruct (update_title_ok (slot l i) t Ht) as [? E]. congruence.
    - intros _. split; [reflexivity|].
      destruct t as [s|]; [|discriminate]. unfold update_title in Et.
      destruct (strlen s >=? MAX_TITLE_LENGTH); by inversion Et. }
  pose proof (update_title_priority _ _ _ Et) as P1.
  destruct (update_description t1 d) as [m|t2] eqn:Ed.
  { cbn [ret said store]. rewrite slot_set_slot_eq by exact Hlen.
    split; [exact P1|]. split.
    - intros _ Hd. destruct (update_description_ok t1 d Hd) as [? E]. congruence.
    - intros _. split; [reflexivity|].
      destruct d as [s|]; [|discriminate]. unfold update_description in Ed.
      destruct (strlen s >=? MAX_DESC_LENGTH); by inversion Ed. }
  pose proof (update_description_priority _ _ _ Ed) as P2.
  rewrite update_priority_out by exact Hp. cbn [ret said store].
  rewrite slot_set_slot_eq by exact Hlen.
  split; [simpl; congruence|]. split; [done|].
  intros [Ht|Hd].
  - rewrite (update_title_bad _ _ Ht) in Et. discriminate.
  - rewrite (update_description_bad _ _ Hd) in Ed. discriminate.
Qed.


(** An over-length title leaves the store untouched. *)
Lemma update_title_too_long_changes_nothing t d p now :
  ~ title_arg_ok t ->
  todo_update l x t d p now = mkOutcome (-1) MsgTitleTooLong l.
Proof.
  intros Ht. unfold todo_update. rewrite Hfind. by rewrite update_title_bad.
Qed.

(** An over-length description does not: whenever the title passes, the
    slot holds the new title although the call has failed. *)
Lemma update_description_too_long_keeps_new_title s d p now :
  title_ok s -> ~ description_ok d ->
  let r := todo_update l x (Some s) d p now in
  ret r = -1 /\ said r = MsgDescTooLong /\
  c_string (title (slot (store r) i)) = c_string s /\
  updated_at (slot (store r) i) = updated_at (slot l i).
Proof.
  intros Hs Hd. unfold todo_update. rewrite Hfind.
  destruct (update_title_ok (slot l i) (Some s) Hs) as [t1 Et]. rewrite Et.
  rewrite update_description_bad by exact Hd. cbn [ret said store].
  rewrite slot_set_slot_eq by exact Hlen. split; [done|]. split; [done|].
  unfold update_title in Et.
  destruct (strlen s >=? MAX_TITLE_LENGTH); [discriminate|].
  injection Et as <-. cbn [title set_title updated_at]. split; [|reflexivity].
  apply c_string_stored; c_bounds.
Qed.

(** A successful update stores the strings it was given. *)
Lemma update_stores_arguments s d p now :
  title_ok s -> strlen d < MAX_DESC_LENGTH -> priority_in_range p ->
  let r := todo_update l x (Some s) (Some d) p now in
  let after := slot (store r) i in
  ret r = 0 /\ c_string (title after) = c_string s /\
  c_string (description after) = c_string d /\
  priority after = p /\ updated_at after = now /\
  id after = id (slot l i) /\ status after = status (slot l i) /\
  created_at after = created_at (slot l i).
Proof.
  intros Hs Hd Hp. unfold todo_update, update_title, update_description.
  rewrite Hfind.
  destruct (Z.geb_spec (strlen s) MAX_TITLE_LENGTH); [c_bounds|].
  destruct (Z.geb_spec (strlen d) MAX_DESC_LENGTH); [lia|].
  rewrite update_priority_in by exact Hp. cbn [ret store].
  rewrite slot_set_slot_eq by exact Hlen.
  cbn [title description priority updated_at id status created_at
       set_updated_at set_priority set_description set_title].
  repeat split; try reflexivity; apply c_string_stored; c_bounds.
Qed.
End Found.

Lemma fresh0_ok : store_ok fresh0.
Proof. split; by_evaluation. Qed.

Lemma sample2_ok : store_ok sample2.
Proof. split; by_evaluation. Qed.

Lemma full0_ok : store_ok full0.
Proof. split; by_evaluation. Qed.

Lemma C10_witness :
  let r := todo_update sample2 1 None None (-1) 2000 in
  ret r = 0 /\ updated_at (slot (store r) 0) = 2000 /\
  title (slot (store r) 0) = title (slot sample2 0).
Proof.
  assert (todo_find_by_id sample2 1 = Some 0%nat) as Hfind by by_evaluation.
  assert (~ priority_in_range (-1)) as Hp by (unfold priority_in_range, PRIORITY_LOW; lia).
  destruct (C10_update_without_change_refreshes_updated_at
              sample2 1 0%nat sample2_ok Hfind (-1) 2000 Hp)
    as (H1 & _ & H2 & _ & H3 & _).
  exact (conj H1 (conj H2 H3)).
Defined.

Lemma C8_witness :
  let r := todo_update sample2 2 (Some (text "Ring dentist")) None 7 2000 in
  priority (slot (store r) 1) = PRIORITY_HIGH /\ ret r = 0.
Proof.
  assert (todo_find_by_id sample2 2 = Some 1%nat) as Hfind by by_evaluation.
  assert (~ priority_in_range 7) as Hp by (unfold priority_in_range, PRIORITY_HIGH; lia).
  destruct (C8_update_ignores_priority_out_of_range
              sample2 2 1%nat sample2_ok Hfind (Some (text "Ring dentist")) None 7 2000 Hp)
    as (H1 & H2 & _).
  split; [exact H1|]. apply H2; [by_evaluation | exact I].
Defined.


(** Completing a completed record a second time keeps the first stamp. *)
Example complete_twice :
  let r := setStatus (store (setStatus sample2 2 true 3000)) 2 true 4000 in
  ret r = 0 /\ said r = MsgAlreadyCompleted 2 /\ updated_at (slot (store r) 1) = 3000.
Proof. by_evaluation. Qed.

(** C1 (the code departs from the specification): [todo_update] checks the
    description only after it has stored the new title.  On the sample
    store, renaming record 1 together with a 500-byte description returns -1
    with the description error, yet the record's title has been replaced; its
    updated-at, description and priority have not moved. *)
Theorem C1_update_stores_title_before_failing :
  let r := todo_update sample2 1 (Some (text "Buy oat milk"))
             (Some (replicate 500 Byte.x41)) PRIORITY_LOW 2000 in
  ret r = -1 /\ said r = MsgDescTooLong /\
  error_kind (said r) = Some ValidationError /\
  todo_find_by_id sample2 1 = Some 0%nat /\
  c_string (title (slot sample2 0)) = text "Buy milk" /\
  c_string (title (slot (store r) 0)) = text "Buy oat milk" /\
  updated_at (slot (store r) 0) = updated_at (slot sample2 0) /\
  description (slot (store r) 0) = description (slot sample2 0) /\
  priority (slot (store r) 0) = priority (slot sample2 0).
Proof. vm_compute. repeat split; reflexivity. Qed.

(** ** [todo_create] *)

Lemma create_full l t d p now :
  count l >= capacity l -> todo_create l t d p now = mkOutcome (-1) MsgInvalidOrFull l.
Proof.
  intros H. unfold todo_create. destruct t; [|reflexivity].
  destruct (Z.geb_spec (count l) (capacity l)); [reflexivity|lia].
Qed.

Lemma create_title_too_long l s d p now :
  count l < capacity l -> ~ title_ok s ->
  todo_create l (Some s) d p now = mkOutcome (-1) MsgTitleTooLong l.
Proof.
  unfold title_ok. intros H Hs. unfold todo_create.
  destruct (Z.geb_spec (count l) (capacity l)); [lia|].
  destruct (Z.geb_spec (strlen s) MAX_TITLE_LENGTH); [reflexivity|lia].
Qed.

Lemma create_description_too_long l s d p now :
  count l < capacity l -> title_ok s -> ~ description_ok d ->
  todo_create l (Some s) d p now = mkOutcome (-1) MsgDescTooLong l.
Proof.
  unfold title_ok, description_ok. intros H Hs Hd. unfold todo_create.
  destruct (Z.geb_spec (count l) (capacity l)); [lia|].
  destruct (Z.geb_spec (strlen s) MAX_TITLE_LENGTH); [lia|].
  destruct d as [d0|]; [|tauto].
  destruct (Z.geb_spec (strlen d0) MAX_DESC_LENGTH); [reflexivity|lia].
Qed.

Lemma create_accepted l s d p now :
  count l < capacity l -> title_ok s -> description_ok d ->
  todo_create l (Some s) d p now =
    mkOutcome (next_id l) (MsgCreated (next_id l))
      {| todos := <[Z.to_nat (count l) := created_todo l s d p now]> (todos l);
         count := wrap_int (count l + 1);
         capacity := capacity l;
         next_id := wrap_int (next_id l + 1) |}.
Proof.
  unfold title_ok, description_ok. intros H Hs Hd. unfold todo_create.
  destruct (Z.geb_spec (count l) (capacity l)); [lia|].
  destruct (Z.geb_spec (strlen s) MAX_TITLE_LENGTH); [lia|].
  assert (match d with Some d0 => strlen d0 >=? MAX_DESC_LENGTH | None => false end
          = false) as ->; [|reflexivity].
  destruct d as [d0|]; [|reflexivity].
  destruct (Z.geb_spec (strlen d0) MAX_DESC_LENGTH); [lia|reflexivity].
Qed.

Section CreateAccepted.
(** A create that passes every check, on a well-formed store. *)
Variables (l : TodoList) (s : list byte) (d : option (list byte)) (p now : Z).
Hypothesis Hok : store_ok l.
Hypothesis Hroom : count l < capacity l.
Hypothesis Hs : title_ok s.
Hypothesis Hd : description_ok d.

Let r := todo_create l (Some s) d p now.

Lemma create_count : count (store r) = count l + 1.
Proof.
  subst r. rewrite create_accepted by done. cbn [store count].
  destruct Hok. apply wrap_int_id. c_bounds.
Qed.

Lemma create_slot : slot (store r) (Z.to_nat (count l)) = created_todo l s d p now.
Proof.
  subst r. rewrite create_accepted by done. unfold slot; cbn [store todos].
  destruct Hok. apply list_lookup_total_insert_eq. lia.
Qed.

(** The new record goes after the live ones, which stay as they are. *)
Lemma create_live : live (store r) = live l ++ [created_todo l s d p now].
Proof.
  unfold live. rewrite create_count.
  subst r. rewrite create_accepted by done. cbn [store todos].
  destruct Hok as [H0 H1 H2 H3].
  replace (Z.to_nat (count l + 1)) with (S (Z.to_nat (count l))) by lia.
  rewrite (take_S_r _ _ (created_todo l s d p now))
    by (apply list_lookup_insert_eq; lia).
  by rewrite take_insert_ge.
Qed.

Lemma create_ok : store_ok (store r).
Proof.
  pose proof create_count as Hc. subst r.
  rewrite create_accepted in * by done. cbn [store count] in Hc.
  destruct Hok as [H0 H1 H2 H3].
  split; cbn [store todos count capacity]; rewrite ?Hc, ?length_insert; lia.
Qed.

(** The stored title and description read back as the arguments. *)
Lemma create_stores_arguments :
  c_string (title (created_todo l s d p now)) = c_string s /\
  c_string (description (created_todo l s d p now)) = c_string (default [] d).
Proof.
  unfold created_todo; cbn [title description]. split.
  - apply c_string_stored; c_bounds.
  - destruct d as [d0|]; cbn [default from_option Datatypes.id].
    + apply c_string_stored; unfold description_ok in Hd; c_bounds.
    + unfold set_nul. change (Z.to_nat 0) with 0%nat.
      by destruct (description (slot l (Z.to_nat (count l)))).
Qed.
End CreateAccepted.

(** C5: with arguments that pass validation, create reports a full store
    exactly when count equals capacity beforehand, and then returns -1 and
    leaves the store as it was; below capacity it succeeds. *)
Theorem C5_create_capacity l s d p now :
  store_ok l -> title_ok s -> description_ok d ->
  let r := todo_create l (Some s) d p now in
  (error_kind (said r) = Some CapacityExceeded <-> count l = capacity l) /\
  (count l = capacity l -> ret r = -1 /\ store r = l) /\
  (count l <> capacity l ->
   said r = MsgCreated (next_id l) /\ ret r = next_id l /\
   count (store r) = count l + 1).
Proof.
  intros Hok Hs Hd. pose proof Hok as [H0 H1 _ _].
  destruct (decide (count l = capacity l)) as [E|E]; cbv zeta.
  - rewrite create_full by lia. cbn [ret said store error_kind]. tauto.
  - assert (count l < capacity l) as Hroom by lia.
    pose proof (create_count l s d p now Hok Hroom Hs Hd) as Hc.
    rewrite create_accepted in * by done. cbn [ret said store error_kind] in *.
    split; [split; [discriminate|done]|]. split; [done|]. done.
Qed.

Lemma C5_witness :
  (let r := todo_create full0 (Some (text "One more")) None PRIORITY_LOW 600 in
   error_kind (said r) = Some CapacityExceeded /\ ret r = -1 /\ store r = full0) /\
  (let r := todo_create sample2 (Some (text "One more")) None PRIORITY_LOW 600 in
   ret r = 3).
Proof.
  assert (title_ok (text "One more")) as Hs by by_evaluation.
  split.
  - destruct (C5_create_capacity full0 (text "One more") None PRIORITY_LOW 600
                full0_ok Hs I) as (H1 & H2 & _).
    assert (count full0 = capacity full0) as E by by_evaluation.
    cbv zeta. split; [apply H1; exact E|]. exact (H2 E).
  - destruct (C5_create_capacity sample2 (text "One more") None PRIORITY_LOW 600
                sample2_ok Hs I) as (_ & _ & H3).
    assert (count sample2 <> capacity sample2) as E by by_evaluation.
    exact (proj1 (proj2 (H3 E))).
Defined.

(** An empty title on the new list is accepted: no validation error, and a
    record is added. *)
Lemma C2_counterexample :
  ~ (let r := todo_create fresh0 (Some []) None PRIORITY_LOW 0 in
     error_kind (said r) = Some ValidationError /\ count (store r) = count fresh0).
Proof. vm_compute. intros [H _]. discriminate H. Qed.

(** C2 (amended): create does not turn an empty title down.  On a store
    below capacity, with an acceptable description, a zero-length title is
    accepted: the call hands out the next ID and appends a record whose title
    is empty.  What create does refuse is a title of [MAX_TITLE_LENGTH] bytes
    or more (validation error) and an absent one; neither adds a record. *)
Theorem C2_create_accepts_empty_title l d p now :
  store_ok l -> count l < capacity l -> description_ok d ->
  (forall s, strlen s = 0 ->
     let r := todo_create l (Some s) d p now in
     ret r = next_id l /\ said r = MsgCreated (next_id l) /\
     count (store r) = count l + 1 /\
     exists t, live (store r) = live l ++ [t] /\
               id t = next_id l /\ c_string (title t) = []) /\
  (forall s, ~ title_ok s ->
     let r := todo_create l (Some s) d p now in
     ret r = -1 /\ error_kind (said r) = Some ValidationError /\ store r = l) /\
  (let r := todo_create l None d p now in ret r = -1 /\ store r = l).
Proof.
  intros Hok Hc Hd. split; [|split].
  - intros s Hs. assert (title_ok s) as Ht by c_bounds. cbv zeta.
    pose proof (create_count l s d p now Hok Hc Ht Hd) as H1.
    pose proof (create_live l s d p now Hok Hc Ht Hd) as H2.
    pose proof (create_stores_arguments l s d p now Ht Hd) as [H3 _].
    rewrite create_accepted in * by done. cbn [ret said store] in *.
    repeat split; try done.
    exists (created_todo l s d p now). split; [exact H2|]. split; [reflexivity|].
    rewrite H3. by apply c_string_empty.
  - intros s Hs. rewrite create_title_too_long by done. done.
  - done.
Qed.

Lemma C2_witness :
  let r := todo_create sample2 (Some []) None PRIORITY_LOW 0 in
  ret r = 3 /\ count (store r) = 3 /\
  exists t, live (store r) = live sample2 ++ [t] /\ c_string (title t) = [].
Proof.
  assert (count sample2 < capacity sample2) as Hroom by by_evaluation.
  destruct (C2_create_accepts_empty_title sample2 None PRIORITY_LOW 0
              sample2_ok Hroom I) as (H & _).
  destruct (H [] eq_refl) as (H1 & _ & H2 & t & H3 & _ & H4).
  cbv zeta. split; [exact H1|]. split; [exact H2|]. exists t. by split.
Defined.

(** ** [todo_delete] *)

Lemma length_shift_loop n : forall ts i, length (shift_loop ts i n) = length ts.
Proof.
  induction n as [|n IH]; intros ts i; simpl; [reflexivity|].
  by rewrite IH, length_insert.
Qed.

(** Slot by slot: the [n] slots from [i] on receive their right
    neighbour, everything else stays. *)
Lemma shift_loop_lookup n : forall (ts : list Todo) i k,
  (i + n < length ts)%nat ->
  shift_loop ts i n !! k =
    if decide (i <= k < i + n)%nat then ts !! S k else ts !! k.
Proof.
  induction n as [|n IH]; intros ts i k Hlen; simpl.
  - case_decide; [lia|reflexivity].
  - rewrite IH by (rewrite length_insert; lia).
    destruct (decide (k = i)) as [->|Hne].
    + rewrite decide_False by lia. rewrite decide_True by lia.
      rewrite list_lookup_insert_eq by lia.
      symmetry. apply list_lookup_lookup_total_lt. lia.
    + repeat case_decide; try lia;
        rewrite list_lookup_insert_ne by lia; reflexivity.
Qed.

Lemma live_after_shift (ts : list Todo) c i :
  (i < c <= length ts)%nat ->
  take (c - 1) (shift_loop ts i (c - 1 - i)) = delete i (take c ts).
Proof.
  intros H. apply list_eq. intros k.
  rewrite lookup_take, list_lookup_delete, shift_loop_lookup by lia.
  rewrite !lookup_take.
  repeat case_decide; try lia; reflexivity.
Qed.

Example shift_loop_compacts :
  map id (shift_loop (map (fun k => mkTodo k [] [] 0 0 0 0) [10; 11; 12; 13; 14]) 1 2)
  = [10; 12; 13; 13; 14].
Proof. reflexivity. Qed.



Lemma delete_not_found l x :
  todo_find_by_id l x = None -> todo_delete l x = mkOutcome (-1) (MsgNotFound x) l.
Proof. unfold todo_delete, todo_find_by_id. by intros ->. Qed.

(** Deleting an ID found in slot [i]: position [i] leaves the live
    records, nothing else changes. *)
Lemma delete_found l x i :
  store_ok l -> todo_find_by_id l x = Some i ->
  let r := todo_delete l x in
  ret r = 0 /\ said r = MsgDeleted x /\
  live (store r) = delete i (live l) /\
  count (store r) = count l - 1 /\ next_id (store r) = next_id l /\
  capacity (store r) = capacity l /\
  length (todos (store r)) = length (todos l).
Proof.
  intros [H0 H1 H2 H3] Hfind.
  pose proof (find_by_id_lt _ _ _ Hfind) as Hlt.
  unfold todo_delete. unfold todo_find_by_id in Hfind. rewrite Hfind.
  cbn [ret said store].
  assert (wrap_int (count l - 1) = count l - 1) as Hc by (apply wrap_int_id; c_bounds).
  split; [reflexivity|]. split; [reflexivity|].
  split; [|split; [exact Hc|]; split; [reflexivity|]; split; [reflexivity|];
           apply length_shift_loop].
  unfold live; cbn [todos count]. rewrite Hc.
  replace (Z.to_nat (count l - 1)) with (Z.to_nat (count l) - 1)%nat by lia.
  replace (Z.to_nat (count l - 1 - Z.of_nat i))
    with (Z.to_nat (count l) - 1 - i)%nat by lia.
  apply live_after_shift. lia.
Qed.

Lemma delete_ok l x : store_ok l -> store_ok (store (todo_delete l x)).
Proof.
  intros Hok. destruct (todo_find_by_id l x) as [i|] eqn:Hfind.
  - pose proof (delete_found l x i Hok Hfind) as H. cbv zeta in H.
    destruct H as (_ & _ & _ & Hc & _ & Hcap & Hlen).
    pose proof (find_by_id_lt _ _ _ Hfind). destruct Hok as [H0 H1 H2 H3].
    split; rewrite ?Hc, ?Hcap, ?Hlen; lia.
  - by rewrite delete_not_found.
Qed.




(** Without unique IDs the search can still succeed after the delete: two
    live records numbered 5. *)
Example delete_with_duplicate_ids :
  let l := {| todos := [mkTodo 5 [] [] 1 0 0 0; mkTodo 5 [] [] 2 0 0 0];
              count := 2; capacity := 2; next_id := 6 |} in
  ret (todo_delete l 5) = 0 /\
  todo_find_by_id (store (todo_delete l 5)) 5 = Some 0%nat.
Proof. by_evaluation. Qed.

(** ** The store invariant *)

Lemma fresh_inv heap :
  Z.of_nat (length heap) = MAX_TODOS -> store_inv (todo_list_create heap).
Proof.
  intros H. split.
  - split; cbn [todo_list_create todos count capacity]; c_bounds.
  - cbn [todo_list_create next_id]. c_bounds.
  - constructor.
  - constructor.
Qed.

Lemma create_cases l t d p now :
  (exists m, todo_create l t d p now = mkOutcome (-1) m l /\
             forall a, m <> MsgCreated a) \/
  (exists s, t = Some s /\ count l < capacity l /\ title_ok s /\ description_ok d).
Proof.
  destruct t as [s|]; [|left; by exists MsgInvalidOrFull].
  destruct (Z_lt_dec (count l) (capacity l)) as [Hroom|Hroom];
    [|left; exists MsgInvalidOrFull; by rewrite create_full by lia].
  destruct (Z_lt_dec (strlen s) MAX_TITLE_LENGTH) as [Hs|Hs];
    [|left; exists MsgTitleTooLong; by rewrite create_title_too_long].
  assert (description_ok d \/ ~ description_ok d) as [Hd|Hd].
  { destruct d as [d0|]; [|by left]. unfold description_ok.
    destruct (Z_lt_dec (strlen d0) MAX_DESC_LENGTH); tauto. }
  - right. by exists s.
  - left. exists MsgDescTooLong. by rewrite create_description_too_long.
Qed.

Lemma create_inv l t d p now :
  store_inv l -> next_id l < INT_MAX ->
  store_inv (store (todo_create l t d p now)).
Proof.
  intros [Hok Hn Hbelow Huniq] Hmax.
  destruct (create_cases l t d p now) as [(m & -> & _)|(s & -> & Hroom & Hs & Hd)];
    [by split|].
  pose proof (create_live l s d p now Hok Hroom Hs Hd) as Hlive.
  pose proof (create_ok l s d p now Hok Hroom Hs Hd) as Hok'.
  assert (next_id (store (todo_create l (Some s) d p now)) = next_id l + 1) as Hnext.
  { rewrite create_accepted by done. cbn [store next_id].
    apply wrap_int_id. c_bounds. }
  split; [exact Hok'| | |].
  - rewrite Hnext. c_bounds.
  - rewrite Hlive, Hnext, map_app. apply Forall_app. split.
    + eapply Forall_impl; [exact Hbelow|]. intros a Ha. simpl in Ha. lia.
    + repeat constructor. cbn [created_todo id]. lia.
  - unfold unique_ids. rewrite Hlive, map_app. apply NoDup_app.
    split; [exact Huniq|]. split; [|apply NoDup_singleton].
    intros a Ha Hin. apply list_elem_of_singleton in Hin.
    rewrite Forall_forall in Hbelow. specialize (Hbelow a Ha).
    cbn [created_todo id] in Hin. lia.
Qed.

Lemma delete_inv l x : store_inv l -> store_inv (store (todo_delete l x)).
Proof.
  intros [Hok Hn Hbelow Huniq].
  destruct (todo_find_by_id l x) as [i|] eqn:Hfind;
    [|rewrite delete_not_found by done; by split].
  pose proof (delete_found l x i Hok Hfind) as H. cbv zeta in H.
  destruct H as (_ & _ & Hlive & _ & Hnext & _).
  split; [by apply delete_ok | by rewrite Hnext | |].
  - rewrite Hlive, Hnext. change (map id (delete i (live l))) with (id <$> delete i (live l)).
    rewrite list_fmap_delete. by apply Forall_delete.
  - unfold unique_ids. rewrite Hlive.
    change (map id (delete i (live l))) with (id <$> delete i (live l)).
    rewrite list_fmap_delete. eapply sublist_NoDup; [exact Huniq|apply sublist_delete].
Qed.

(** Overwriting a live slot with a record of the same ID keeps the
    invariant; this is all [todo_update], [todo_complete] and
    [todo_mark_pending] do to the store. *)
Lemma set_slot_inv l i t :
  store_inv l -> (i < Z.to_nat (count l))%nat -> id t = id (slot l i) ->
  store_inv (set_slot l i t).
Proof.
  intros [Hok Hn Hbelow Huniq] Hi Hid.
  assert (map id (live (set_slot l i t)) = map id (live l)) as Hids.
  { unfold live, set_slot; cbn [todos count].
    rewrite take_insert_lt by lia.
    change (map id ?ts) with (id <$> ts). rewrite list_fmap_insert.
    apply list_insert_id. rewrite list_lookup_fmap.
    fold (live l). rewrite (live_lookup l i Hok Hi). simpl. by rewrite Hid. }
  split; [by apply set_slot_ok | exact Hn | |].
  - rewrite Hids. exact Hbelow.
  - unfold unique_ids. rewrite Hids. exact Huniq.
Qed.

Lemma update_title_id t a m : update_title t a = inr m -> id m = id t.
Proof.
  unfold update_title. destruct a as [s|]; [|by intros [= <-]].
  destruct (strlen s >=? MAX_TITLE_LENGTH); [discriminate|]. by intros [= <-].
Qed.

Lemma update_description_id t a m : update_description t a = inr m -> id m = id t.
Proof.
  unfold update_description. destruct a as [s|]; [|by intros [= <-]].
  destruct (strlen s >=? MAX_DESC_LENGTH); [discriminate|]. by intros [= <-].
Qed.

Lemma update_priority_id t p : id (update_priority t p) = id t.
Proof. unfold update_priority. by destruct (_ && _). Qed.

Lemma update_inv l x t d p now :
  store_inv l -> store_inv (store (todo_update l x t d p now)).
Proof.
  intros Hinv. unfold todo_update.
  destruct (todo_find_by_id l x) as [i|] eqn:Hfind; [|exact Hinv].
  pose proof (find_by_id_lt _ _ _ Hfind) as Hi.
  destruct (update_title (slot l i) t) as [m|t1] eqn:Et; [exact Hinv|].
  pose proof (update_title_id _ _ _ Et) as E1.
  destruct (update_description t1 d) as [m|t2] eqn:Ed; cbn [store].
  - by apply set_slot_inv.
  - pose proof (update_description_id _ _ _ Ed) as E2.
    apply set_slot_inv; [done..|].
    cbn [id set_updated_at]. rewrite update_priority_id. congruence.
Qed.

Lemma setStatus_inv l x completed now :
  store_inv l -> store_inv (store (setStatus l x completed now)).
Proof.
  intros Hinv. unfold setStatus, todo_complete, todo_mark_pending.
  destruct completed;
    (destruct (todo_find_by_id l x) as [i|] eqn:Hfind; [|exact Hinv]);
    pose proof (find_by_id_lt _ _ _ Hfind) as Hi;
    destruct (status (slot l i) =? _); cbn [store]; try exact Hinv;
    by apply set_slot_inv.
Qed.

(** ** ID assignment over sequences of creates and deletes *)

Lemma run_cons l o ops :
  run l (o :: ops) =
    (created o (step l o) ++ (run (store (step l o)) ops).1,
     (run (store (step l o)) ops).2).
Proof. simpl. by destruct (run (store (step l o)) ops). Qed.

Lemma run_app ops1 : forall l ops2,
  run l (ops1 ++ ops2) =
    ((run l ops1).1 ++ (run (run l ops1).2 ops2).1,
     (run (run l ops1).2 ops2).2).
Proof.
  induction ops1 as [|o ops1 IH]; intros l ops2.
  - simpl. by destruct (run l ops2).
  - rewrite <- app_comm_cons, !run_cons. cbn [fst snd].
    rewrite IH. cbn [fst snd]. by rewrite app_assoc.
Qed.

(** One step either hands out no ID and leaves the counter, or hands out
    the counter and advances it by one, wrapping as a 32-bit [int] does. *)
Lemma step_next_id l o :
  created o (step l o) = [] /\ next_id (store (step l o)) = next_id l \/
  created o (step l o) = [next_id l] /\
  next_id (store (step l o)) = wrap_int (next_id l + 1).
Proof.
  destruct o as [t d p now|x]; cbn [step created].
  - destruct (create_cases l t d p now) as [(m & -> & Hm)|(s & -> & Hroom & Hs & Hd)].
    + left. cbn [said store]. split; [|reflexivity].
      destruct m; try reflexivity. by destruct (Hm i).
    + right. by rewrite create_accepted.
  - left. split; [reflexivity|].
    unfold todo_delete. by destruct (find_loop _ _ _ _).
Qed.

(** The IDs a run hands out are the successive values of the counter, and
    the counter ends that many steps further; both modulo the wrap-around. *)
Lemma run_ids ops : forall l,
  in_int (next_id l) ->
  let r := run l ops in
  r.1 = map (fun j => wrap_int (next_id l + Z.of_nat j)) (seq 0 (length r.1)) /\
  next_id r.2 = wrap_int (next_id l + Z.of_nat (length r.1)).
Proof.
  induction ops as [|o ops IH]; intros l Hint; cbv zeta.
  - simpl. rewrite Z.add_0_r. by rewrite wrap_int_id.
  - rewrite run_cons. cbn [fst snd].
    specialize (IH (store (step l o))).
    destruct (step_next_id l o) as [[Hc Hn]|[Hc Hn]]; rewrite Hc, Hn in *.
    + exact (IH Hint).
    + specialize (IH (wrap_int_range _)). cbv zeta in IH.
      destruct IH as [IH1 IH2].
      set (ids := (run (store (step l o)) ops).1) in *.
      cbn [app length seq map]. split.
      * rewrite Z.add_0_r, wrap_int_id by exact Hint. f_equal.
        rewrite IH1 at 1. rewrite <- seq_shift, map_map.
        apply map_ext. intros j. rewrite wrap_int_add_l. f_equal. lia.
      * rewrite IH2, wrap_int_add_l. f_equal. lia.
Qed.

(** While the counter stays below [INT_MAX], a run keeps the store
    invariant. *)
Lemma run_inv ops : forall l,
  store_inv l ->
  next_id l + Z.of_nat (length (run l ops).1) <= INT_MAX ->
  store_inv (run l ops).2.
Proof.
  induction ops as [|o ops IH]; intros l Hinv Hmax; [exact Hinv|].
  rewrite run_cons in *. cbn [fst snd] in *.
  destruct (step_next_id l o) as [[Hc Hn]|[Hc Hn]]; rewrite Hc in Hmax.
  - apply IH; [|by rewrite Hn].
    destruct o as [t d p now|x]; cbn [step]; [|by apply delete_inv].
    destruct (create_cases l t d p now) as [(m & -> & _)|(s & -> & Hroom & Hs & Hd)];
      [exact Hinv|].
    cbn [step created] in Hc. rewrite create_accepted in Hc by done.
    discriminate Hc.
  - cbn [app length] in Hmax.
    assert (wrap_int (next_id l + 1) = next_id l + 1) as Hw.
    { apply wrap_int_id. destruct Hinv as [_ Hi _ _]. c_bounds. }
    apply IH; [|rewrite Hn, Hw; lia].
    destruct o as [t d p now|x]; cbn [step]; [|by apply delete_inv].
    apply create_inv; [exact Hinv|lia].
Qed.

(** Every store reached from a new list by creates and deletes is
    well-formed and has unique IDs, as long as fewer than [INT_MAX] creates
    have succeeded. *)
Lemma reachable_inv heap ops :
  Z.of_nat (length heap) = MAX_TODOS ->
  Z.of_nat (length (run (todo_list_create heap) ops).1) < INT_MAX ->
  store_inv (run (todo_list_create heap) ops).2.
Proof.
  intros Hheap Hmax. apply run_inv; [by apply fresh_inv|].
  cbn [todo_list_create next_id]. lia.
Qed.

(** C3 (amended): starting from a new list, as long as at most [INT_MAX]
    creates have succeeded, the IDs handed out are 1, 2, 3, ... in that
    order: strictly increasing and without repetition, whatever deletes came
    in between.  As long as fewer than [INT_MAX] have succeeded, the next-ID
    counter is above all of them: it stands one above the number of IDs
    handed out.  The sequence is arbitrary, so this holds at every point of
    a run. *)
Theorem C3_ids_increase_until_counter_wraps heap ops :
  let r := run (todo_list_create heap) ops in
  Z.of_nat (length r.1) <= INT_MAX ->
  r.1 = map Z.of_nat (seq 1 (length r.1)) /\
  StronglySorted Z.lt r.1 /\ NoDup r.1 /\
  (Z.of_nat (length r.1) < INT_MAX ->
   Forall (fun a => a < next_id r.2) r.1 /\
   next_id r.2 = 1 + Z.of_nat (length r.1)).
Proof.
  cbv zeta. intros Hk.
  pose proof (run_ids ops (todo_list_create heap)) as H. cbv zeta in H.
  cbn [todo_list_create next_id] in H.
  destruct H as [H1 H2]; [c_bounds|].
  set (ids := (run (todo_list_create heap) ops).1) in *.
  set (k := length ids) in *.
  assert (ids = map Z.of_nat (seq 1 k)) as Hids.
  { rewrite H1. rewrite <- seq_shift, map_map. apply map_ext_in.
    intros j Hj. apply in_seq in Hj. rewrite wrap_int_id; [lia|]. c_bounds. }
  split; [exact Hids|].
  assert (forall n s, StronglySorted Z.lt (map Z.of_nat (seq s n))) as Hsorted.
  { induction n as [|n IHn]; intros s; simpl; constructor; [apply IHn|].
    apply Forall_forall. intros a Ha. apply list_elem_of_In, in_map_iff in Ha.
    destruct Ha as (j & <- & Hj). apply in_seq in Hj. lia. }
  split; [rewrite Hids; apply Hsorted|]. split.
  - rewrite Hids. apply NoDup_fmap_2; [intros a b; lia|].
    apply NoDup_ListNoDup, seq_NoDup.
  - intros Hlt.
    assert (next_id (run (todo_list_create heap) ops).2 = 1 + Z.of_nat k) as Hnext.
    { rewrite H2. apply wrap_int_id. c_bounds. }
    rewrite Hnext. split; [|reflexivity].
    rewrite Hids. apply Forall_forall. intros a Ha.
    apply list_elem_of_In, in_map_iff in Ha. destruct Ha as (j & <- & Hj).
    apply in_seq in Hj. lia.
Qed.

Lemma C3_witness :
  let r := run fresh0 scenario in
  StronglySorted Z.lt r.1 /\ NoDup r.1 /\ Forall (fun a => a < next_id r.2) r.1.
Proof.
  assert (Z.of_nat (length (run fresh0 scenario).1) <= INT_MAX) as Hk by by_evaluation.
  assert (Z.of_nat (length (run fresh0 scenario).1) < INT_MAX) as Hlt by by_evaluation.
  destruct (C3_ids_increase_until_counter_wraps heap0 scenario Hk)
    as (_ & H1 & H2 & H3).
  exact (conj H1 (conj H2 (proj1 (H3 Hlt)))).
Defined.

(** The scenario of the specification: IDs 1 and 2, record 1 deleted and
    no longer found, record 2 left, and the next create gets 3, not 1. *)
Example scenario_ids :
  let r := run fresh0 (take 3 scenario) in
  r.1 = [1; 2] /\ map id (live r.2) = [2] /\ todo_find_by_id r.2 1 = None /\
  (run fresh0 scenario).1 = [1; 2; 3].
Proof. by_evaluation. Qed.

(** One round of [churn] on an empty store: the create succeeds, the delete
    empties the store again, the counter has moved by one. *)
Lemma create_then_delete l :
  count l = 0 -> 0 < capacity l -> (0 < length (todos l))%nat ->
  let r1 := todo_create l (Some (text "again")) None PRIORITY_LOW 0 in
  let r2 := todo_delete (store r1) (next_id l) in
  said r1 = MsgCreated (next_id l) /\ ret r1 = next_id l /\
  count (store r2) = 0 /\ capacity (store r2) = capacity l /\
  length (todos (store r2)) = length (todos l) /\
  next_id (store r2) = wrap_int (next_id l + 1).
Proof.
  intros Hc Hcap Hlen. cbv zeta.
  rewrite create_accepted by (first [lia | by_evaluation]).
  cbn [ret said store]. split; [reflexivity|]. split; [reflexivity|].
  unfold todo_delete. cbn [todos count]. rewrite Hc.
  change (Z.to_nat (wrap_int (0 + 1))) with 1%nat.
  change (Z.to_nat 0) with 0%nat. cbn [find_loop].
  rewrite list_lookup_total_insert_eq by exact Hlen.
  cbn [created_todo id]. rewrite Z.eqb_refl.
  cbn [store count capacity todos next_id].
  change (Z.to_nat (wrap_int (0 + 1) - 1 - Z.of_nat 0)) with 0%nat.
  cbn [shift_loop]. rewrite length_insert. done.
Qed.

Lemma churn_all_succeed n : forall l first,
  count l = 0 -> 0 < capacity l -> (0 < length (todos l))%nat ->
  (n <> 0%nat -> next_id l = first) ->
  INT_MIN <= first -> first + Z.of_nat n <= INT_MAX + 1 ->
  length (run l (churn first n)).1 = n.
Proof.
  induction n as [|n IH]; intros l first Hc Hcap Hlen Hfirst Hlo Hhi;
    [reflexivity|].
  specialize (Hfirst ltac:(done)). subst first.
  pose proof (create_then_delete l Hc Hcap Hlen) as H. cbv zeta in H.
  destruct H as (Hm & Hr & Hc2 & Hcap2 & Hlen2 & Hn2).
  cbn [churn]. rewrite !run_cons. cbn [step created fst snd].
  rewrite Hm. cbn [app length]. f_equal.
  apply IH; try lia.
  intros Hn. rewrite Hn2. apply wrap_int_id. c_bounds.
Qed.

(** After [INT_MAX] rounds of create-then-delete on a new list the counter
    has wrapped to [INT_MIN]: it is no longer above the IDs handed out. *)
Lemma C3_counterexample :
  let r := run fresh0 (churn 1 (Z.to_nat INT_MAX)) in
  ~ Forall (fun a => a < next_id r.2) r.1.
Proof.
  cbv zeta. remember (Z.to_nat INT_MAX) as rounds eqn:Hrounds.
  assert (Z.of_nat rounds = INT_MAX) as Hz.
  { rewrite Hrounds. apply Z2Nat.id. unfold INT_MAX. lia. }
  clear Hrounds.
  assert (length (run fresh0 (churn 1 rounds)).1 = rounds) as Hlen.
  { apply churn_all_succeed; try reflexivity.
    - cbn [fresh0 todo_list_create todos]. unfold heap0.
      rewrite length_replicate. unfold MAX_TODOS. lia.
    - unfold INT_MIN. lia.
    - lia. }
  pose proof (run_ids (churn 1 rounds) fresh0) as H. cbv zeta in H.
  destruct H as [H1 H2].
  { cbn [fresh0 todo_list_create next_id]. c_bounds. }
  rewrite Hlen in H1, H2. cbn [fresh0 todo_list_create next_id] in H1, H2.
  rewrite Hz in H2.
  change (wrap_int (1 + INT_MAX)) with INT_MIN in H2.
  rewrite H2, H1. intros Hall.
  rewrite Forall_forall in Hall. specialize (Hall (wrap_int (1 + Z.of_nat 0))).
  assert (wrap_int (1 + Z.of_nat 0) < INT_MIN) as Habs.
  { apply Hall. apply list_elem_of_In, in_map_iff. exists 0%nat.
    split; [reflexivity|]. apply in_seq.
    unfold INT_MAX in Hz. lia. }
  vm_compute in Habs. discriminate Habs.
Qed.

(** The last round alone, from a store whose counter stands at [INT_MAX]
    (the IDs 5 and 6 are live): the create hands out [INT_MAX] and leaves
    the counter at [INT_MIN]. *)
Example counter_wraps_at_INT_MAX :
  let l := {| todos := [mkTodo 5 [] [] 1 0 0 0; mkTodo 6 [] [] 1 0 0 0;
                        blank; blank];
              count := 2; capacity := 4; next_id := INT_MAX |} in
  let r := todo_create l (Some (text "last")) None PRIORITY_LOW 0 in
  ret r = INT_MAX /\ next_id (store r) = INT_MIN /\
  map id (live (store r)) = [5; 6; INT_MAX].
Proof. by_evaluation. Qed.

(** ** [load_todos_from_file] and [save_todos_to_file] *)

(** C9: loading from a path that holds no file is a success and gives the
    store [todo_list_create] made: no live record, count 0, next ID 1. *)
Theorem C9_load_missing_file heap filename fs :
  file_exists fs (default DEFAULT_FILENAME filename) = false ->
  let r := load heap filename fs in
  r.1 = 0 /\ r.2 = todo_list_create heap /\
  count r.2 = 0 /\ next_id r.2 = 1 /\ live r.2 = [].
Proof.
  intros H. unfold load, load_todos_from_file. cbv zeta. rewrite H. simpl.
  repeat split; reflexivity.
Qed.

Lemma C9_witness :
  let r := load heap0 (Some "data/none.dat"%string) fs0 in
  r.1 = 0 /\ count r.2 = 0 /\ next_id r.2 = 1.
Proof.
  assert (file_exists fs0 (default DEFAULT_FILENAME (Some "data/none.dat"%string))
          = false) as Hnone by by_evaluation.
  destruct (C9_load_missing_file heap0 (Some "data/none.dat"%string) fs0 Hnone)
    as (H1 & _ & H2 & H3 & _).
  exact (conj H1 (conj H2 H3)).
Defined.

(** *** The codec *)

Lemma length_encode_int z : length (encode_int z) = 4%nat.
Proof. apply length_le_split. Qed.

Lemma length_encode_time z : length (encode_time z) = 8%nat.
Proof. apply length_le_split. Qed.

Lemma decode_encode_int z : in_int z -> decode_int (encode_int z) = z.
Proof.
  intros H. unfold decode_int, encode_int. rewrite le_combine_split.
  change (2 ^ (Z.of_nat SIZEOF_INT * 8)) with 4294967296.
  unfold wrap_int. rewrite Zplus_mod_idemp_l. rewrite Z.mod_small; c_bounds.
Qed.

Lemma decode_encode_time z : in_time z -> decode_time (encode_time z) = z.
Proof.
  intros H. unfold decode_time, encode_time. rewrite le_combine_split.
  change (2 ^ (Z.of_nat SIZEOF_TIME_T * 8)) with 18446744073709551616.
  unfold wrap_time. rewrite Zplus_mod_idemp_l. rewrite Z.mod_small; c_bounds.
Qed.

Example encode_int_minus_one :
  encode_int (-1) = [Byte.xff; Byte.xff; Byte.xff; Byte.xff].
Proof. reflexivity. Qed.

Example encode_int_little_endian :
  encode_int 1000 = [Byte.xe8; Byte.x03; Byte.x00; Byte.x00].
Proof. reflexivity. Qed.

Lemma field_here (a b c : list byte) off len :
  length a = off -> length b = len -> field off len (a ++ b ++ c) = b.
Proof.
  intros <- <-. unfold field. by rewrite drop_app_length, take_app_length.
Qed.

Lemma field_first (b c : list byte) len :
  length b = len -> field 0 len (b ++ c) = b.
Proof. intros <-. unfold field. by rewrite drop_0, take_app_length. Qed.

Lemma length_encode_todo t : todo_fits t -> length (encode_todo t) = SIZEOF_TODO.
Proof.
  intros [_ Ht Hd _ _ _ _]. unfold encode_todo.
  rewrite !length_app, !length_encode_int, !length_encode_time, Ht, Hd.
  reflexivity.
Qed.

Lemma decode_encode_todo t : todo_fits t -> decode_todo (encode_todo t) = t.
Proof.
  intros [Hi Ht Hd Hp Hs Hc Hu]. destruct t as [i ti de p s c u].
  cbn [id title description priority status created_at updated_at] in *.
  unfold decode_todo, encode_todo.
  cbn [id title description priority status created_at updated_at].
  set (e_i := encode_int i). set (e_p := encode_int p). set (e_s := encode_int s).
  set (e_c := encode_time c). set (e_u := encode_time u).
  set (pad := replicate 4 Byte.x00).
  assert (length e_i = 4%nat) as Li by apply length_encode_int.
  assert (length e_p = 4%nat) as Lp by apply length_encode_int.
  assert (length e_s = 4%nat) as Ls by apply length_encode_int.
  assert (length e_c = 8%nat) as Lc by apply length_encode_time.
  assert (length e_u = 8%nat) as Lu by apply length_encode_time.
  assert (length pad = 4%nat) as Lpad by reflexivity.
  f_equal.
  - rewrite field_first by exact Li. by apply decode_encode_int.
  - apply field_here; done.
  - rewrite (app_assoc e_i ti). apply field_here; [|done].
    rewrite length_app. lia.
  - rewrite (app_assoc e_i ti), (app_assoc _ de).
    rewrite field_here; [by apply decode_encode_int| |done].
    rewrite !length_app. lia.
  - rewrite (app_assoc e_i ti), (app_assoc _ de), (app_assoc _ e_p).
    rewrite field_here; [by apply decode_encode_int| |done].
    rewrite !length_app. lia.
  - rewrite (app_assoc e_i ti), (app_assoc _ de), (app_assoc _ e_p),
      (app_assoc _ e_s), (app_assoc _ pad).
    rewrite field_here; [by apply decode_encode_time| |done].
    rewrite !length_app. lia.
  - rewrite (app_assoc e_i ti), (app_assoc _ de), (app_assoc _ e_p),
      (app_assoc _ e_s), (app_assoc _ pad), (app_assoc _ e_c).
    rewrite <- (app_nil_r e_u) at 1.
    rewrite field_here; [by apply decode_encode_time| |done].
    rewrite !length_app. lia.
Qed.

(** Reading back what [fwrite] wrote for [ts], whatever follows in the
    stream. *)
Lemma fread_todos_encoded ts : forall rest,
  Forall todo_fits ts ->
  fread_todos (concat (map encode_todo ts) ++ rest) (length ts) = ts.
Proof.
  induction ts as [|t ts IH]; intros rest Hfit; [reflexivity|].
  apply Forall_cons in Hfit as [Ht Hts].
  pose proof (length_encode_todo t Ht) as Hlen.
  cbn [map concat length fread_todos]. rewrite <- app_assoc.
  destruct (Nat.ltb_spec (length (encode_todo t ++ concat (map encode_todo ts) ++ rest))
              SIZEOF_TODO) as [Hlt|_].
  { rewrite length_app in Hlt. lia. }
  rewrite take_app_length' by done. rewrite drop_app_length' by done.
  rewrite decode_encode_todo by done. by rewrite IH.
Qed.

Lemma length_fread_todos n : forall bs, (length (fread_todos bs n) <= n)%nat.
Proof.
  induction n as [|n IH]; intros bs; simpl; [lia|].
  destruct (length bs <? SIZEOF_TODO)%nat; simpl; [lia|].
  specialize (IH (drop SIZEOF_TODO bs)). lia.
Qed.

(** The records create writes fit the block when the slot they overwrite
    did and the scalars are values of their C types. *)
Lemma created_todo_fits l s d p now :
  todo_fits (slot l (Z.to_nat (count l))) ->
  in_int (next_id l) -> in_int p -> in_time now ->
  todo_fits (created_todo l s d p now).
Proof.
  intros [_ Ht Hd _ _ _ _] Hn Hp Hnow.
  split; cbn [created_todo id title description priority status created_at updated_at];
    try done.
  - rewrite length_set_nul, length_strncpy; [done|]. rewrite Ht. c_bounds.
  - destruct d as [d0|]; rewrite length_set_nul; [|done].
    rewrite length_strncpy; [done|]. rewrite Hd. c_bounds.
Qed.

Lemma create_backup_locked fs f : locked (create_backup fs f).2 = locked fs.
Proof.
  unfold create_backup. destruct (negb (file_exists fs f)); [reflexivity|].
  case_bool_decide; reflexivity.
Qed.

(** What a save that can open its target leaves there. *)
Lemma save_written l filename fs :
  default DEFAULT_FILENAME filename ∉ locked fs ->
  let saved := save_todos_to_file l filename fs in
  saved.1 = 0 /\
  files saved.2 !! default DEFAULT_FILENAME filename =
    Some (encode_int (count l) ++ encode_int (next_id l)
          ++ (if count l >? 0 then concat (map encode_todo (live l)) else [])).
Proof.
  intros Hfree. unfold save_todos_to_file. cbv zeta.
  set (f := default DEFAULT_FILENAME filename) in *.
  set (fs1 := if file_exists fs f then (create_backup fs f).2 else fs).
  assert (locked fs1 = locked fs) as Hl.
  { subst fs1. destruct (file_exists fs f); [apply create_backup_locked|reflexivity]. }
  rewrite bool_decide_false by (rewrite Hl; exact Hfree).
  cbn [fst snd write_file files]. split; [reflexivity|].
  rewrite lookup_insert_eq. by rewrite <- app_assoc.
Qed.

Lemma save_locked l filename fs :
  default DEFAULT_FILENAME filename ∈ locked fs ->
  (save_todos_to_file l filename fs).1 = -1.
Proof.
  intros Hl. unfold save_todos_to_file. cbv zeta.
  set (f := default DEFAULT_FILENAME filename) in *.
  rewrite bool_decide_true; [reflexivity|].
  destruct (file_exists fs f); [by rewrite create_backup_locked|done].
Qed.

(** C4: a store whose counters and live records are values of their C
    types, saved to a path that can be opened for writing and then loaded
    into a new list, comes back with the same count, the same next ID and
    the same live records, field for field and in the same order. *)
Theorem C4_save_then_load_roundtrip l filename fs heap :
  store_ok l -> capacity l = MAX_TODOS -> in_int (next_id l) ->
  Forall todo_fits (live l) ->
  default DEFAULT_FILENAME filename ∉ locked fs ->
  let saved := save_todos_to_file l filename fs in
  let loaded := load heap filename saved.2 in
  saved.1 = 0 /\ loaded.1 = 0 /\
  count loaded.2 = count l /\ next_id loaded.2 = next_id l /\
  live loaded.2 = live l.
Proof.
  intros Hok Hcap Hnext Hfit Hfree.
  pose proof (length_live l Hok) as Hlen. destruct Hok as [H0 H1 H2 H3].
  pose proof (save_written l filename fs Hfree) as Hsave. cbv zeta in Hsave.
  destruct Hsave as [Hr Hfile]. cbv zeta. split; [exact Hr|].
  assert (in_int (count l)) as Hcount by c_bounds.
  unfold load, load_todos_from_file. cbv zeta.
  unfold file_exists. rewrite Hfile.
  rewrite bool_decide_true by eauto. cbn [negb default from_option Datatypes.id].
  set (items := if count l >? 0 then concat (map encode_todo (live l)) else []).
  destruct (Nat.ltb_spec
              (length (encode_int (count l) ++ encode_int (next_id l) ++ items))
              (2 * SIZEOF_INT)) as [Hshort|_].
  { rewrite !length_app, !length_encode_int in Hshort.
    unfold SIZEOF_INT in Hshort. lia. }
  rewrite field_first by apply length_encode_int.
  rewrite field_here by apply length_encode_int.
  rewrite !decode_encode_int by done.
  destruct (Z.ltb_spec (count l) 0) as [?|_]; [lia|].
  destruct (Z.gtb_spec (count l) MAX_TODOS) as [?|_]; [lia|].
  cbn [orb].
  assert ((if count l >? 0
           then fread_todos
                  (drop 8 (encode_int (count l) ++ encode_int (next_id l) ++ items))
                  (Z.to_nat (count l))
           else []) = live l) as ->.
  { subst items. destruct (Z.gtb_spec (count l) 0) as [Hpos|Hzero].
    - rewrite app_assoc, drop_app_length'
        by (rewrite length_app, !length_encode_int; reflexivity).
      rewrite <- (app_nil_r (concat _)).
      replace (Z.to_nat (count l)) with (length (live l)) by lia.
      by apply fread_todos_encoded.
    - destruct (live l); [reflexivity|]. simpl in Hlen. lia. }
  rewrite Hlen, Z.eqb_refl. cbn [negb fst snd count next_id].
  split; [reflexivity|]. split; [reflexivity|]. split; [reflexivity|].
  unfold live at 1. cbn [todos count].
  apply take_app_length'. lia.
Qed.

Lemma sample2_fits : Forall todo_fits (live sample2).
Proof.
  let ts := eval vm_compute in (live sample2) in change (live sample2) with ts.
  repeat constructor; vm_compute; congruence.
Qed.

Lemma C4_witness :
  let saved := save_todos_to_file sample2 None fs0 in
  let loaded := load heap0 None saved.2 in
  saved.1 = 0 /\ loaded.1 = 0 /\ count loaded.2 = 2 /\ next_id loaded.2 = 3 /\
  live loaded.2 = live sample2.
Proof.
  assert (in_int (next_id sample2)) as Hn by by_evaluation.
  assert (default DEFAULT_FILENAME None ∉ locked fs0) as Hfree
    by (vm_compute; set_solver).
  exact (C4_save_then_load_roundtrip sample2 None fs0 heap0
           sample2_ok eq_refl Hn sample2_fits Hfree).
Defined.

(** The file the sample store is saved to: an 8-byte header and two
    632-byte blocks; saving again first copies it to the backup path. *)
Example sample2_file :
  let fs1 := (save_todos_to_file sample2 None fs0).2 in
  let fs2 := (save_todos_to_file sample1 None fs1).2 in
  length <$> files fs1 !! DEFAULT_FILENAME = Some 1272%nat /\
  files fs1 !! "data/todos.dat.backup"%string = None /\
  files fs2 !! "data/todos.dat.backup"%string = files fs1 !! DEFAULT_FILENAME /\
  length <$> files fs2 !! DEFAULT_FILENAME = Some 640%nat.
Proof. by_evaluation. Qed.

(** A header announcing more than [MAX_TODOS] records, or fewer blocks than
    announced, makes the load fail and keeps the counters of the list. *)
Example load_rejects_bad_files :
  let bad_count := mkFileSystem {[ DEFAULT_FILENAME := encode_int 1001 ++ encode_int 1 ]} ∅ in
  let truncated := mkFileSystem {[ DEFAULT_FILENAME := encode_int 1 ++ encode_int 2 ]} ∅ in
  (load heap0 None bad_count).1 = -1 /\ (load heap0 None truncated).1 = -1 /\
  count (load heap0 None truncated).2 = 0 /\ next_id (load heap0 None truncated).2 = 1.
Proof. by_evaluation. Qed.

(** * Further properties of todo.c *)

Lemma find_none_iff l x :
  store_ok l ->
  todo_find_by_id l x = None <-> forall t, t ∈ live l -> id t <> x.
Proof.
  intros Hok. pose proof (find_by_id_is_Some l x Hok) as H. split.
  - intros E t Ht Hid. assert (is_Some (todo_find_by_id l x)) as [i Hi]
      by (apply H; eauto). congruence.
  - intros Hno. destruct (todo_find_by_id l x) eqn:E; [|reflexivity].
    assert (is_Some (Some n)) as Hs by eauto.
    apply H in Hs as (t & Ht & Hid). by destruct (Hno t Ht).
Qed.

(** X1: [todo_find_by_id] on a well-formed store answers with the first
    live position whose record carries the ID, and with nothing exactly when
    no live record carries it. *)
Theorem X1_find_by_id_first_match l x :
  store_ok l ->
  match todo_find_by_id l x with
  | Some i =>
      live l !! i = Some (slot l i) /\ id (slot l i) = x /\
      forall k t, (k < i)%nat -> live l !! k = Some t -> id t <> x
  | None => forall t, t ∈ live l -> id t <> x
  end.
Proof.
  intros Hok. destruct (todo_find_by_id l x) as [i|] eqn:E.
  - pose proof (find_by_id_lt _ _ _ E) as Hlt.
    split; [by apply live_lookup|]. split; [by eapply find_by_id_id|].
    intros k t Hk Hkt. rewrite live_lookup in Hkt by (done || lia).
    injection Hkt as <-. by eapply find_by_id_first.
  - by apply find_none_iff.
Qed.

Lemma X1_witness :
  live sample2 !! 1%nat = Some (slot sample2 1) /\ id (slot sample2 1) = 2.
Proof.
  pose proof (X1_find_by_id_first_match sample2 2 sample2_ok) as H.
  assert (todo_find_by_id sample2 2 = Some 1%nat) as E by by_evaluation.
  rewrite E in H. destruct H as (H1 & H2 & _). exact (conj H1 H2).
Defined.

(** X2: when no live record carries the ID, update, delete, complete and
    mark-pending all return -1, say that the ID was not found and leave the
    store exactly as it was. *)
Theorem X2_unknown_id_changes_nothing l x :
  store_ok l -> (forall t, t ∈ live l -> id t <> x) ->
  (forall t d p now,
     todo_update l x t d p now = mkOutcome (-1) (MsgNotFound x) l) /\
  todo_delete l x = mkOutcome (-1) (MsgNotFound x) l /\
  (forall now, todo_complete l x now = mkOutcome (-1) (MsgNotFound x) l) /\
  (forall now, todo_mark_pending l x now = mkOutcome (-1) (MsgNotFound x) l).
Proof.
  intros Hok Hno. apply (find_none_iff l x Hok) in Hno.
  split; [|split; [|split]].
  - intros. unfold todo_update. by rewrite Hno.
  - by apply delete_not_found.
  - intros. unfold todo_complete. by rewrite Hno.
  - intros. unfold todo_mark_pending. by rewrite Hno.
Qed.

Lemma sample2_has_no_7 : forall t, t ∈ live sample2 -> id t <> 7.
Proof.
  apply (find_none_iff sample2 7 sample2_ok). by_evaluation.
Qed.

Lemma X2_witness :
  todo_delete sample2 7 = mkOutcome (-1) (MsgNotFound 7) sample2.
Proof.
  exact (proj1 (proj2 (X2_unknown_id_changes_nothing sample2 7
                         sample2_ok sample2_has_no_7))).
Defined.

(** The scan over one more slot. *)
Lemma find_loop_snoc ts x n : forall i,
  find_loop ts x i (S n) =
    match find_loop ts x i n with
    | Some j => Some j
    | None => if id (ts !!! (i + n)%nat) =? x then Some (i + n)%nat else None
    end.
Proof.
  induction n as [|n IH]; intros i.
  - simpl. rewrite Nat.add_0_r. by destruct (_ =? _).
  - change (find_loop ts x i (S (S n)))
      with (if id (ts !!! i) =? x then Some i else find_loop ts x (S i) (S n)).
    rewrite IH. cbn [find_loop]. destruct (id (ts !!! i) =? x); [reflexivity|].
    replace (S i + n)%nat with (i + S n)%nat by lia. reflexivity.
Qed.

Lemma find_loop_ext ts ts' x n : forall i,
  (forall k, (i <= k < i + n)%nat -> ts' !!! k = ts !!! k) ->
  find_loop ts' x i n = find_loop ts x i n.
Proof.
  induction n as [|n IH]; intros i H; simpl; [reflexivity|].
  rewrite (H i) by lia. rewrite IH; [reflexivity|].
  intros k Hk. apply H. lia.
Qed.

(** X3: after a successful create on a store that keeps its invariant, the
    ID returned is found, in the slot just behind the former live records,
    and the search for any other ID answers as before. *)
Theorem X3_create_then_find l s d p now :
  store_inv l -> count l < capacity l -> title_ok s -> description_ok d ->
  let r := todo_create l (Some s) d p now in
  todo_find_by_id (store r) (ret r) = Some (Z.to_nat (count l)) /\
  forall y, y <> ret r -> todo_find_by_id (store r) y = todo_find_by_id l y.
Proof.
  intros [Hok Hn Hbelow Huniq] Hroom Hs Hd. cbv zeta.
  pose proof (create_count l s d p now Hok Hroom Hs Hd) as Hc.
  rewrite create_accepted in * by done. cbn [ret store count] in *.
  pose proof Hok as [H0 H1 H2 H3].
  set (c := Z.to_nat (count l)) in *. set (new := created_todo l s d p now) in *.
  set (l' := mkTodoList _ _ _ _) in *.
  assert (forall y, todo_find_by_id l' y
                    = find_loop (<[c := new]> (todos l)) y 0 (S c)) as Hscan.
  { intros y. unfold todo_find_by_id. subst l'. cbn [todos count]. rewrite Hc.
    by replace (Z.to_nat (count l + 1)) with (S c) by lia. }
  rewrite Hscan.
  assert (forall y, find_loop (<[c := new]> (todos l)) y 0 c = todo_find_by_id l y) as Hold.
  { intros y. apply find_loop_ext. intros k Hk.
    apply list_lookup_total_insert_ne. lia. }
  assert ((<[c := new]> (todos l)) !!! c = new) as Hnew
    by (apply list_lookup_total_insert_eq; subst c; lia).
  split.
  - rewrite find_loop_snoc, Hold. simpl. rewrite Hnew.
    assert (todo_find_by_id l (next_id l) = None) as ->.
    { apply find_none_iff; [done|]. intros t Ht E.
      rewrite Forall_forall in Hbelow.
      assert (id t < next_id l); [|lia].
      apply Hbelow, list_elem_of_fmap. eauto. }
    subst new. cbn [created_todo id]. by rewrite Z.eqb_refl.
  - intros y Hy. rewrite Hscan, find_loop_snoc, Hold. simpl. rewrite Hnew.
    destruct (todo_find_by_id l y); [reflexivity|].
    subst new. cbn [created_todo id].
    destruct (Z.eqb_spec (next_id l) y); [congruence|reflexivity].
Qed.

Lemma fresh0_inv : store_inv fresh0.
Proof. apply fresh_inv. by_evaluation. Qed.

Lemma sample2_inv : store_inv sample2.
Proof.
  unfold sample2, sample1.
  apply create_inv; [apply create_inv; [exact fresh0_inv|]|]; by_evaluation.
Qed.

Lemma X3_witness :
  let r := todo_create sample2 (Some (text "Water plants")) None PRIORITY_LOW 1002 in
  ret r = 3 /\ todo_find_by_id (store r) 3 = Some 2%nat /\
  todo_find_by_id (store r) 1 = Some 0%nat.
Proof.
  assert (count sample2 < capacity sample2) as Hroom by by_evaluation.
  assert (title_ok (text "Water plants")) as Hs by by_evaluation.
  destruct (X3_create_then_find sample2 (text "Water plants") None PRIORITY_LOW 1002
              sample2_inv Hroom Hs I) as [H1 H2].
  cbv zeta. split; [by_evaluation|]. split; [exact H1|].
  rewrite H2; by_evaluation.
Defined.

(** X4: a create that passes the checks appends one record behind the live
    ones, which stay as they are.  The record carries the next ID, the title
    and description read back as the strings passed (an absent description
    as the empty string), the priority passed, status Pending and both time
    stamps equal to the current time. *)
Theorem X4_create_appends_the_record_passed l s d p now :
  store_ok l -> count l < capacity l -> title_ok s -> description_ok d ->
  let r := todo_create l (Some s) d p now in
  exists t,
    live (store r) = live l ++ [t] /\
    id t = next_id l /\ ret r = next_id l /\
    c_string (title t) = c_string s /\
    c_string (description t) = c_string (default [] d) /\
    priority t = p /\ status t = STATUS_PENDING /\
    created_at t = now /\ updated_at t = now.
Proof.
  intros Hok Hroom Hs Hd. cbv zeta. exists (created_todo l s d p now).
  split; [by apply create_live|].
  destruct (create_stores_arguments l s d p now Hs Hd) as [Ht Hdesc].
  rewrite create_accepted by done. by repeat split.
Qed.

Lemma X4_witness :
  exists t,
    live (store (todo_create sample2 (Some (text "Water plants"))
                   (Some (text "Twice a week")) PRIORITY_LOW 1002))
    = live sample2 ++ [t] /\
    c_string (title t) = text "Water plants" /\
    c_string (description t) = text "Twice a week".
Proof.
  assert (count sample2 < capacity sample2) as Hroom by by_evaluation.
  assert (title_ok (text "Water plants")) as Hs by by_evaluation.
  assert (description_ok (Some (text "Twice a week"))) as Hd by by_evaluation.
  destruct (X4_create_appends_the_record_passed sample2 (text "Water plants")
              (Some (text "Twice a week")) PRIORITY_LOW 1002 sample2_ok Hroom Hs Hd)
    as (t & H1 & _ & _ & H2 & H3 & _).
  exists t. split; [exact H1|]. split; [exact H2|exact H3].
Defined.

(** ** Invariants over every sequence of calls *)

Lemma call_inv l c :
  store_inv l -> next_id l < INT_MAX -> store_inv (store (call l c)).
Proof.
  intros Hinv Hmax. destruct c as [t d p now|x t d p now|x|x now|x now]; cbn [call].
  - by apply create_inv.
  - by apply update_inv.
  - by apply delete_inv.
  - exact (setStatus_inv l x true now Hinv).
  - exact (setStatus_inv l x false now Hinv).
Qed.

Lemma update_next_id l x t d p now :
  next_id (store (todo_update l x t d p now)) = next_id l.
Proof.
  unfold todo_update. destruct (todo_find_by_id l x); [|reflexivity].
  destruct (update_title _ t); [reflexivity|].
  by destruct (update_description _ d).
Qed.

Lemma setStatus_next_id l x completed now :
  next_id (store (setStatus l x completed now)) = next_id l.
Proof.
  unfold setStatus, todo_complete, todo_mark_pending.
  destruct completed; (destruct (todo_find_by_id l x); [|reflexivity]);
    by destruct (_ =? _).
Qed.

(** A call moves the counter by at most one. *)
Lemma call_next_id l c :
  in_int (next_id l) -> next_id l < INT_MAX ->
  next_id l <= next_id (store (call l c)) <= next_id l + 1.
Proof.
  intros Hn Hmax. destruct c as [t d p now|x t d p now|x|x now|x now]; cbn [call].
  - destruct (create_cases l t d p now) as [(m & -> & _)|(s & -> & Hroom & Hs & Hd)];
      [cbn [store]; lia|].
    rewrite create_accepted by done. cbn [store next_id].
    rewrite wrap_int_id by c_bounds. lia.
  - rewrite update_next_id. lia.
  - unfold todo_delete. destruct (find_loop _ _ _ _); cbn [store next_id]; lia.
  - pose proof (setStatus_next_id l x true now) as E. cbn [setStatus] in E. lia.
  - pose proof (setStatus_next_id l x false now) as E. cbn [setStatus] in E. lia.
Qed.

(** X5: every sequence of creates, updates, deletes and status changes
    keeps the store invariant (count within capacity and within the block,
    live IDs pairwise distinct and below the next-ID counter), as long as the
    counter cannot pass [INT_MAX] on the way. *)
Theorem X5_calls_keep_the_store_invariant cs : forall l,
  store_inv l ->
  next_id l + Z.of_nat (length cs) <= INT_MAX ->
  store_inv (calls l cs).
Proof.
  induction cs as [|c cs IH]; intros l Hinv Hmax; [exact Hinv|].
  cbn [calls length] in *.
  assert (next_id l < INT_MAX) as Hlt by lia.
  pose proof (call_next_id l c (inv_next_id l Hinv) Hlt).
  apply IH; [by apply call_inv|lia].
Qed.

Lemma X5_witness : store_inv (calls fresh0 busy_day).
Proof.
  apply (X5_calls_keep_the_store_invariant busy_day fresh0 fresh0_inv).
  by_evaluation.
Defined.

Lemma call_ok l c : store_ok l -> store_ok (store (call l c)).
Proof.
  intros Hok. destruct c as [t d p now|x t d p now|x|x now|x now]; cbn [call].
  - destruct (create_cases l t d p now) as [(m & -> & _)|(s & -> & Hroom & Hs & Hd)];
      [exact Hok|by apply create_ok].
  - unfold todo_update. destruct (todo_find_by_id l x); [|exact Hok].
    destruct (update_title _ t); [exact Hok|].
    destruct (update_description _ d); cbn [store]; by apply set_slot_ok.
  - by apply delete_ok.
  - unfold todo_complete. destruct (todo_find_by_id l x); [|exact Hok].
    destruct (_ =? _); cbn [store]; [exact Hok|by apply set_slot_ok].
  - unfold todo_mark_pending. destruct (todo_find_by_id l x); [|exact Hok].
    destruct (_ =? _); cbn [store]; [exact Hok|by apply set_slot_ok].
Qed.

Lemma live_set_slot l i t :
  live (set_slot l i t) =
    if decide (i < Z.to_nat (count l))%nat then <[i := t]> (live l) else live l.
Proof. unfold live, set_slot; cbn [todos count]. apply take_insert. Qed.

Lemma Forall_live_set_slot (P : Todo -> Prop) l i t :
  Forall P (live l) -> P t -> Forall P (live (set_slot l i t)).
Proof.
  intros Hall Ht. rewrite live_set_slot. case_decide; [|exact Hall].
  by apply Forall_insert.
Qed.

Lemma Forall_live_slot (P : Todo -> Prop) l x i :
  store_ok l -> todo_find_by_id l x = Some i -> Forall P (live l) -> P (slot l i).
Proof.
  intros Hok Hfind Hall. rewrite Forall_forall in Hall. apply Hall.
  eapply list_elem_of_lookup_2, live_lookup; [done|]. by eapply find_by_id_lt.
Qed.

Lemma stored_string_bounded buf s n :
  0 <= n -> strlen s <= n -> strlen (set_nul (strncpy buf s n) n) = strlen s.
Proof. intros Hn Hs. by rewrite !strlen_c_string, c_string_stored. Qed.

Lemma update_title_bounded t a m :
  strings_bounded t -> update_title t a = inr m -> strings_bounded m.
Proof.
  intros [Ht Hd]. unfold update_title. destruct a as [s|]; [|by intros [= <-]].
  destruct (Z.geb_spec (strlen s) MAX_TITLE_LENGTH); [discriminate|].
  intros [= <-]. split; cbn [title description set_title]; [|exact Hd].
  rewrite stored_string_bounded; c_bounds.
Qed.

Lemma update_description_bounded t a m :
  strings_bounded t -> update_description t a = inr m -> strings_bounded m.
Proof.
  intros [Ht Hd]. unfold update_description. destruct a as [s|]; [|by intros [= <-]].
  destruct (Z.geb_spec (strlen s) MAX_DESC_LENGTH); [discriminate|].
  intros [= <-]. split; cbn [title description set_description]; [exact Ht|].
  rewrite stored_string_bounded; c_bounds.
Qed.

Lemma created_todo_bounded l s d p now :
  title_ok s -> description_ok d -> strings_bounded (created_todo l s d p now).
Proof.
  intros Hs Hd.
  destruct (create_stores_arguments l s d p now Hs Hd) as [Ht Hdesc].
  split; rewrite strlen_c_string.
  - rewrite Ht, <- strlen_c_string. exact Hs.
  - rewrite Hdesc, <- strlen_c_string.
    destruct d as [d0|]; [exact Hd|by_evaluation].
Qed.

Lemma call_bounded l c :
  store_ok l -> Forall strings_bounded (live l) ->
  Forall strings_bounded (live (store (call l c))).
Proof.
  intros Hok Hall. destruct c as [t d p now|x t d p now|x|x now|x now]; cbn [call].
  - destruct (create_cases l t d p now) as [(m & -> & _)|(s & -> & Hroom & Hs & Hd)];
      [exact Hall|].
    rewrite create_live by done. apply Forall_app. split; [exact Hall|].
    repeat constructor; by apply created_todo_bounded.
  - unfold todo_update. destruct (todo_find_by_id l x) as [i|] eqn:Hfind; [|exact Hall].
    pose proof (Forall_live_slot _ l x i Hok Hfind Hall) as Hslot.
    destruct (update_title _ t) as [m|t1] eqn:Et; [exact Hall|].
    pose proof (update_title_bounded _ _ _ Hslot Et) as H1.
    destruct (update_description _ d) as [m|t2] eqn:Ed; cbn [store];
      apply Forall_live_set_slot; try done.
    pose proof (update_description_bounded _ _ _ H1 Ed) as [H2 H3].
    unfold update_priority. by destruct (_ && _).
  - destruct (todo_find_by_id l x) as [i|] eqn:Hfind;
      [|by rewrite delete_not_found].
    pose proof (delete_found l x i Hok Hfind) as H. cbv zeta in H.
    destruct H as (_ & _ & -> & _). by apply Forall_delete.
  - unfold todo_complete. destruct (todo_find_by_id l x) as [i|] eqn:Hfind; [|exact Hall].
    pose proof (Forall_live_slot _ l x i Hok Hfind Hall) as [H1 H2].
    destruct (_ =? _); cbn [store]; [exact Hall|].
    by apply Forall_live_set_slot.
  - unfold todo_mark_pending.
    destruct (todo_find_by_id l x) as [i|] eqn:Hfind; [|exact Hall].
    pose proof (Forall_live_slot _ l x i Hok Hfind Hall) as [H1 H2].
    destruct (_ =? _); cbn [store]; [exact Hall|].
    by apply Forall_live_set_slot.
Qed.

(** X6: through every sequence of calls the strings of the live records
    stay inside their buffers: each title ends before byte 100 and each
    description before byte 500, whatever the slots held before. *)
Theorem X6_calls_keep_strings_bounded cs : forall l,
  store_ok l -> Forall strings_bounded (live l) ->
  Forall strings_bounded (live (calls l cs)).
Proof.
  induction cs as [|c cs IH]; intros l Hok Hall; [exact Hall|].
  cbn [calls]. apply IH; [by apply call_ok|by apply call_bounded].
Qed.

Lemma X6_witness : Forall strings_bounded (live (calls fresh0 busy_day)).
Proof.
  apply (X6_calls_keep_strings_bounded busy_day fresh0 fresh0_ok).
  change (live fresh0) with (@nil Todo). constructor.
Defined.

(** *** Records stay values of their C types *)

Lemma Forall_shift_loop (P : Todo -> Prop) n : forall ts i,
  (i + n < length ts)%nat -> Forall P ts -> Forall P (shift_loop ts i n).
Proof.
  induction n as [|n IH]; intros ts i Hlen Hall; [exact Hall|].
  cbn [shift_loop]. apply IH; [rewrite length_insert; lia|].
  apply Forall_insert; [exact Hall|].
  rewrite Forall_forall in Hall. apply Hall.
  apply list_elem_of_lookup_total_2. lia.
Qed.

Lemma update_title_fits t a m :
  todo_fits t -> update_title t a = inr m -> todo_fits m.
Proof.
  intros [Hi Ht Hd Hp Hs Hc Hu]. unfold update_title.
  destruct a as [s|]; [|by intros [= <-]].
  destruct (strlen s >=? MAX_TITLE_LENGTH); [discriminate|].
  intros [= <-]. split; cbn [id title description priority status created_at
                             updated_at set_title]; try done.
  rewrite length_set_nul, length_strncpy; [done|]. rewrite Ht. c_bounds.
Qed.

Lemma update_description_fits t a m :
  todo_fits t -> update_description t a = inr m -> todo_fits m.
Proof.
  intros [Hi Ht Hd Hp Hs Hc Hu]. unfold update_description.
  destruct a as [s|]; [|by intros [= <-]].
  destruct (strlen s >=? MAX_DESC_LENGTH); [discriminate|].
  intros [= <-]. split; cbn [id title description priority status created_at
                             updated_at set_description]; try done.
  rewrite length_set_nul, length_strncpy; [done|]. rewrite Hd. c_bounds.
Qed.

Lemma update_priority_fits t p : todo_fits t -> todo_fits (update_priority t p).
Proof.
  intros Hfit. unfold update_priority.
  destruct (Z.geb_spec p PRIORITY_LOW), (Z.leb_spec p PRIORITY_HIGH);
    cbn [andb]; try exact Hfit.
  destruct Hfit. split; cbn [id title description priority status created_at
                            updated_at set_priority]; try done.
  unfold PRIORITY_LOW, PRIORITY_HIGH in *. c_bounds.
Qed.

Lemma set_updated_at_fits t now :
  todo_fits t -> in_time now -> todo_fits (set_updated_at t now).
Proof. intros [] Hnow. by split. Qed.

Lemma set_status_fits t s : todo_fits t -> in_int s -> todo_fits (set_status t s).
Proof. intros [] Hs. by split. Qed.

Lemma Forall_set_slot (P : Todo -> Prop) l i t :
  Forall P (todos l) -> P t -> Forall P (todos (set_slot l i t)).
Proof. intros Hall Ht. unfold set_slot; cbn [todos]. by apply Forall_insert. Qed.

Lemma Forall_slot (P : Todo -> Prop) l i :
  (i < length (todos l))%nat -> Forall P (todos l) -> P (slot l i).
Proof.
  intros Hi Hall. rewrite Forall_forall in Hall. apply Hall.
  by apply list_elem_of_lookup_total_2.
Qed.

Lemma call_fits_slots l c :
  store_ok l -> in_int (next_id l) -> call_fits c ->
  Forall todo_fits (todos l) ->
  Forall todo_fits (todos (store (call l c))) /\
  in_int (next_id (store (call l c))).
Proof.
  intros Hok Hn Hc Hall. pose proof Hok as [H0 H1 H2 H3].
  destruct c as [t d p now|x t d p now|x|x now|x now]; cbn [call call_fits] in *.
  - destruct Hc as [Hp Hnow].
    destruct (create_cases l t d p now) as [(m & -> & _)|(s & -> & Hroom & Hs & Hd)];
      [by split|].
    rewrite create_accepted by done. cbn [store todos next_id].
    split; [|apply wrap_int_range].
    apply Forall_insert; [exact Hall|].
    apply created_todo_fits; try done. apply Forall_slot; [lia|exact Hall].
  - destruct Hc as [Hp Hnow]. rewrite update_next_id. split; [|exact Hn].
    unfold todo_update. destruct (todo_find_by_id l x) as [i|] eqn:Hfind; [|exact Hall].
    pose proof (Forall_slot _ l i (find_by_id_allocated _ _ _ Hok Hfind) Hall) as Hslot.
    destruct (update_title _ t) as [m|t1] eqn:Et; [exact Hall|].
    pose proof (update_title_fits _ _ _ Hslot Et) as F1.
    destruct (update_description _ d) as [m|t2] eqn:Ed; cbn [store];
      apply Forall_set_slot; try done.
    apply set_updated_at_fits; [|exact Hnow]. apply update_priority_fits.
    by eapply update_description_fits.
  - split; [|unfold todo_delete; by destruct (find_loop _ _ _ _)].
    unfold todo_delete. fold (todo_find_by_id l x).
    destruct (todo_find_by_id l x) as [i|] eqn:Hfind; [|exact Hall].
    cbn [store todos]. pose proof (find_by_id_lt _ _ _ Hfind).
    apply Forall_shift_loop; [lia|exact Hall].
  - pose proof (setStatus_next_id l x true now) as E. cbn [setStatus] in E.
    rewrite E. split; [|exact Hn].
    unfold todo_complete. destruct (todo_find_by_id l x) as [i|] eqn:Hfind; [|exact Hall].
    pose proof (Forall_slot _ l i (find_by_id_allocated _ _ _ Hok Hfind) Hall) as Hslot.
    destruct (_ =? _); cbn [store]; [exact Hall|].
    apply Forall_set_slot; [exact Hall|].
    apply set_updated_at_fits; [|exact Hc]. apply set_status_fits; [exact Hslot|].
    by_evaluation.
  - pose proof (setStatus_next_id l x false now) as E. cbn [setStatus] in E.
    rewrite E. split; [|exact Hn].
    unfold todo_mark_pending.
    destruct (todo_find_by_id l x) as [i|] eqn:Hfind; [|exact Hall].
    pose proof (Forall_slot _ l i (find_by_id_allocated _ _ _ Hok Hfind) Hall) as Hslot.
    destruct (_ =? _); cbn [store]; [exact Hall|].
    apply Forall_set_slot; [exact Hall|].
    apply set_updated_at_fits; [|exact Hc]. apply set_status_fits; [exact Hslot|].
    by_evaluation.
Qed.

(** X7: when the slots start out as values of their C types (100- and
    500-byte buffers, 32-bit integers, 64-bit time stamps) and every call
    passes a priority and a time of those types, then after any sequence of
    calls the live records still fit the fixed-size block and the next-ID
    counter is a 32-bit integer: the store can be written in the file
    layout. *)
Theorem X7_calls_keep_records_in_layout cs : forall l,
  store_ok l -> in_int (next_id l) -> Forall todo_fits (todos l) ->
  Forall call_fits cs ->
  Forall todo_fits (live (calls l cs)) /\ in_int (next_id (calls l cs)) /\
  store_ok (calls l cs).
Proof.
  induction cs as [|c cs IH]; intros l Hok Hn Hall Hcs.
  - split; [|by split]. by apply Forall_take.
  - apply Forall_cons in Hcs as [Hc Hcs]. cbn [calls].
    destruct (call_fits_slots l c Hok Hn Hc Hall) as [Hall' Hn'].
    apply IH; try done. by apply call_ok.
Qed.

Lemma heap0_fits : Forall todo_fits heap0.
Proof. apply Forall_replicate. split; by_evaluation. Qed.

Lemma busy_day_fits : Forall call_fits busy_day.
Proof. repeat constructor; by_evaluation. Qed.

Lemma X7_witness :
  Forall todo_fits (live (calls fresh0 busy_day)) /\
  in_int (next_id (calls fresh0 busy_day)).
Proof.
  assert (in_int (next_id fresh0)) as Hn by by_evaluation.
  destruct (X7_calls_keep_records_in_layout busy_day fresh0 fresh0_ok Hn
              heap0_fits busy_day_fits) as (H1 & H2 & _).
  exact (conj H1 H2).
Defined.

Example busy_day_result :
  map (fun t => (id t, show_buf (title t), priority t, status t, updated_at t))
      (live (calls fresh0 busy_day))
  = [ (2, "Ring dentist"%string, 3, 0, 1003);
      (3, "Water plants"%string, 1, 0, 1004) ].
Proof. by_evaluation. Qed.

(** ** More on [todo_update] and the status calls *)

Lemma update_title_spec t a m :
  update_title t a = inr m ->
  m = set_title t (title m) /\
  match a with
  | Some s => c_string (title m) = c_string s
  | None => title m = title t
  end.
Proof.
  unfold update_title. destruct a as [s|]; [|intros [= <-]; by destruct t].
  destruct (Z.geb_spec (strlen s) MAX_TITLE_LENGTH); [discriminate|].
  intros [= <-]. split; [reflexivity|]. cbn [title set_title].
  apply c_string_stored; c_bounds.
Qed.

Lemma update_description_spec t a m :
  update_description t a = inr m ->
  m = set_description t (description m) /\
  match a with
  | Some s => c_string (description m) = c_string s
  | None => description m = description t
  end.
Proof.
  unfold update_description. destruct a as [s|]; [|intros [= <-]; by destruct t].
  destruct (Z.geb_spec (strlen s) MAX_DESC_LENGTH); [discriminate|].
  intros [= <-]. split; [reflexivity|]. cbn [description set_description].
  apply c_string_stored; c_bounds.
Qed.

(** X8: whatever its arguments and whether it succeeds or not,
    [todo_update] on an ID the store holds writes to no slot but the one
    found, and there it leaves the ID, the status and the creation time
    alone; the count, the capacity and the next-ID counter do not move. *)
Theorem X8_update_touches_one_record l x i t d p now :
  store_ok l -> todo_find_by_id l x = Some i ->
  let r := todo_update l x t d p now in
  (forall j, j <> i -> todos (store r) !! j = todos l !! j) /\
  id (slot (store r) i) = id (slot l i) /\
  status (slot (store r) i) = status (slot l i) /\
  created_at (slot (store r) i) = created_at (slot l i) /\
  length (todos (store r)) = length (todos l) /\
  count (store r) = count l /\ capacity (store r) = capacity l /\
  next_id (store r) = next_id l.
Proof.
  intros Hok Hfind. pose proof (find_by_id_allocated _ _ _ Hok Hfind) as Hlen.
  unfold todo_update. rewrite Hfind.
  destruct (update_title (slot l i) t) as [m|t1] eqn:Et; [by repeat split|].
  destruct (update_title_spec _ _ _ Et) as [E1 _].
  destruct (update_description t1 d) as [m|t2] eqn:Ed; cbn [store].
  - rewrite slot_set_slot_eq by exact Hlen. rewrite E1.
    repeat split; try reflexivity.
    + intros j Hj. unfold set_slot; cbn [todos]. by apply list_lookup_insert_ne.
    + unfold set_slot; cbn [todos]. apply length_insert.
  - destruct (update_description_spec _ _ _ Ed) as [E2 _].
    rewrite slot_set_slot_eq by exact Hlen.
    assert (forall u, id (update_priority u p) = id u /\
                      status (update_priority u p) = status u /\
                      created_at (update_priority u p) = created_at u) as Hp.
    { intros u. unfold update_priority. by destruct (_ && _). }
    destruct (Hp t2) as (P1 & P2 & P3). cbn [id status created_at set_updated_at].
    rewrite P1, P2, P3, E2, E1.
    repeat split; try reflexivity.
    + intros j Hj. unfold set_slot; cbn [todos]. by apply list_lookup_insert_ne.
    + unfold set_slot; cbn [todos]. apply length_insert.
Qed.

Lemma X8_witness :
  let r := todo_update sample2 1 (Some (text "Buy oat milk"))
             (Some (replicate 500 Byte.x41)) PRIORITY_LOW 2000 in
  todos (store r) !! 1%nat = todos sample2 !! 1%nat /\
  id (slot (store r) 0) = 1 /\ count (store r) = 2.
Proof.
  assert (todo_find_by_id sample2 1 = Some 0%nat) as Hfind by by_evaluation.
  destruct (X8_update_touches_one_record sample2 1 0%nat (Some (text "Buy oat milk"))
              (Some (replicate 500 Byte.x41)) PRIORITY_LOW 2000 sample2_ok Hfind)
    as (H1 & H2 & _ & _ & _ & H3 & _).
  cbv zeta. split; [apply H1; lia|]. split; [exact H2|exact H3].
Defined.

(** X9: an update whose title and description pass (or are absent) returns
    0 and stamps the record with the current time; a title or description
    that was passed reads back as the string passed, one that was not is
    left as it was, and a priority inside Low..High is stored. *)
Theorem X9_update_stores_what_was_passed l x i t d p now :
  store_ok l -> todo_find_by_id l x = Some i ->
  title_arg_ok t -> description_ok d ->
  let r := todo_update l x t d p now in
  let before := slot l i in
  let after := slot (store r) i in
  ret r = 0 /\ said r = MsgUpdated x /\ updated_at after = now /\
  match t with
  | Some s => c_string (title after) = c_string s
  | None => title after = title before
  end /\
  match d with
  | Some s => c_string (description after) = c_string s
  | None => description after = description before
  end /\
  (priority_in_range p -> priority after = p).
Proof.
  intros Hok Hfind Ht Hd. pose proof (find_by_id_allocated _ _ _ Hok Hfind) as Hlen.
  unfold todo_update. rewrite Hfind.
  destruct (update_title_ok (slot l i) t Ht) as [t1 Et]. rewrite Et.
  destruct (update_description_ok t1 d Hd) as [t2 Ed]. rewrite Ed.
  cbn [ret said store]. rewrite slot_set_slot_eq by exact Hlen.
  destruct (update_title_spec _ _ _ Et) as [E1 T1].
  destruct (update_description_spec _ _ _ Ed) as [E2 D2].
  assert (title (update_priority t2 p) = title t1 /\
          description (update_priority t2 p) = description t2) as [P1 P2].
  { unfold update_priority. rewrite E2. by destruct (_ && _). }
  cbn [updated_at title description priority set_updated_at].
  rewrite P1, P2. split; [done|]. split; [done|]. split; [done|].
  split; [exact T1|]. split.
  - destruct d as [s|]; [exact D2|]. rewrite D2, E1. reflexivity.
  - intros Hp. by rewrite update_priority_in.
Qed.

Lemma X9_witness :
  let r := todo_update sample2 2 (Some (text "Ring dentist")) None PRIORITY_LOW 2000 in
  ret r = 0 /\ c_string (title (slot (store r) 1)) = text "Ring dentist" /\
  description (slot (store r) 1) = description (slot sample2 1) /\
  priority (slot (store r) 1) = PRIORITY_LOW.
Proof.
  assert (todo_find_by_id sample2 2 = Some 1%nat) as Hfind by by_evaluation.
  assert (title_arg_ok (Some (text "Ring dentist"))) as Ht by by_evaluation.
  destruct (X9_update_stores_what_was_passed sample2 2 1%nat
              (Some (text "Ring dentist")) None PRIORITY_LOW 2000
              sample2_ok Hfind Ht I) as (H1 & _ & _ & H2 & H3 & H4).
  cbv zeta. split; [exact H1|]. split; [exact H2|]. split; [exact H3|].
  apply H4. by_evaluation.
Defined.

(** The scan reads nothing but the IDs. *)
Lemma find_loop_ids ts ts' x n : forall i,
  (forall k, id (ts' !!! k) = id (ts !!! k)) ->
  find_loop ts' x i n = find_loop ts x i n.
Proof.
  induction n as [|n IH]; intros i H; simpl; [reflexivity|].
  by rewrite H, IH.
Qed.

Lemma find_set_slot l i t y :
  (i < length (todos l))%nat -> id t = id (slot l i) ->
  todo_find_by_id (set_slot l i t) y = todo_find_by_id l y.
Proof.
  intros Hlen Hid. unfold todo_find_by_id, set_slot; cbn [todos count].
  apply find_loop_ids. intros k. destruct (decide (k = i)) as [->|Hne].
  - by rewrite list_lookup_total_insert_eq.
  - by rewrite list_lookup_total_insert_ne.
Qed.

(** X10: asking twice for the same status is asking once: the second call
    returns 0 like the first and leaves the store as the first left it, so
    the time of the first call stays in updated-at. *)
Theorem X10_setStatus_twice l x i completed now later :
  store_ok l -> todo_find_by_id l x = Some i ->
  let once := setStatus l x completed now in
  let twice := setStatus (store once) x completed later in
  ret twice = 0 /\ store twice = store once.
Proof.
  intros Hok Hfind. pose proof (find_by_id_allocated _ _ _ Hok Hfind) as Hlen.
  cbv zeta. unfold setStatus, todo_complete, todo_mark_pending.
  destruct completed; rewrite Hfind.
  - destruct (Z.eqb_spec (status (slot l i)) STATUS_COMPLETED) as [E|E]; cbn [store].
    + rewrite Hfind. destruct (Z.eqb_spec (status (slot l i)) STATUS_COMPLETED); done.
    + rewrite find_set_slot, Hfind by done.
      rewrite slot_set_slot_eq by done. cbn [status set_updated_at set_status].
      by rewrite Z.eqb_refl.
  - destruct (Z.eqb_spec (status (slot l i)) STATUS_PENDING) as [E|E]; cbn [store].
    + rewrite Hfind. destruct (Z.eqb_spec (status (slot l i)) STATUS_PENDING); done.
    + rewrite find_set_slot, Hfind by done.
      rewrite slot_set_slot_eq by done. cbn [status set_updated_at set_status].
      by rewrite Z.eqb_refl.
Qed.

Lemma X10_witness :
  let once := setStatus sample2 2 true 3000 in
  let twice := setStatus (store once) 2 true 4000 in
  ret twice = 0 /\ store twice = store once.
Proof.
  assert (todo_find_by_id sample2 2 = Some 1%nat) as Hfind by by_evaluation.
  exact (X10_setStatus_twice sample2 2 1%nat true 3000 4000 sample2_ok Hfind).
Defined.

(** X11: completing a pending record and marking it pending again gives
    the record back with nothing changed but updated-at, which holds the
    time of the second call; no other slot is written. *)
Theorem X11_complete_then_mark_pending l x i now later :
  store_ok l -> todo_find_by_id l x = Some i ->
  status (slot l i) = STATUS_PENDING ->
  store (todo_mark_pending (store (todo_complete l x now)) x later)
  = set_slot l i (set_updated_at (slot l i) later).
Proof.
  intros Hok Hfind Hst. pose proof (find_by_id_allocated _ _ _ Hok Hfind) as Hlen.
  unfold todo_complete, todo_mark_pending. rewrite Hfind, Hst.
  change (STATUS_PENDING =? STATUS_COMPLETED) with false. cbn [store].
  rewrite find_set_slot, Hfind by done.
  rewrite slot_set_slot_eq by done. cbn [status set_updated_at set_status].
  change (STATUS_COMPLETED =? STATUS_PENDING) with false.
  unfold set_slot; cbn [todos count capacity next_id store].
  rewrite list_insert_insert_eq. f_equal. f_equal.
  destruct (slot l i) as [a b c e f g h]. cbn in *. by subst f.
Qed.

Lemma X11_witness :
  let l := store (todo_mark_pending (store (todo_complete sample2 1 3000)) 1 4000) in
  status (slot l 0) = STATUS_PENDING /\ updated_at (slot l 0) = 4000 /\
  title (slot l 0) = title (slot sample2 0).
Proof.
  assert (todo_find_by_id sample2 1 = Some 0%nat) as Hfind by by_evaluation.
  assert (status (slot sample2 0) = STATUS_PENDING) as Hst by by_evaluation.
  cbv zeta.
  rewrite (X11_complete_then_mark_pending sample2 1 0%nat 3000 4000
             sample2_ok Hfind Hst).
  by_evaluation.
Defined.

(** * Further properties of file_io.c *)

Lemma string_length_append s1 s2 :
  String.length (s1 +:+ s2) = (String.length s1 + String.length s2)%nat.
Proof. induction s1 as [|a s1 IH]; simpl; [reflexivity|]. by rewrite IH. Qed.

Lemma substring_whole s : forall n,
  (String.length s <= n)%nat -> String.substring 0 n s = s.
Proof.
  induction s as [|a s IH]; intros [|n] H; simpl in *; try reflexivity; try lia.
  rewrite IH by lia. reflexivity.
Qed.

(** A path of at most 248 characters gets the whole suffix, and a name of
    its own. *)
Lemma backup_name_short f :
  (String.length f <= 248)%nat ->
  backup_name f = f +:+ ".backup" /\ backup_name f <> f.
Proof.
  intros H. unfold backup_name.
  rewrite substring_whole by (rewrite string_length_append; simpl; lia).
  split; [reflexivity|]. intros E.
  apply (f_equal String.length) in E. rewrite string_length_append in E.
  simpl in E. lia.
Qed.

Lemma create_backup_found fs f content :
  files fs !! f = Some content -> backup_name f <> f ->
  backup_name f ∉ locked fs ->
  create_backup fs f =
    (0, mkFileSystem (<[backup_name f := content]> (files fs)) (locked fs)).
Proof.
  intros Hf Hne Hfree. unfold create_backup, file_exists.
  rewrite bool_decide_true by (rewrite Hf; eauto). cbn [negb].
  rewrite bool_decide_false by exact Hfree.
  unfold write_file; cbn [files locked].
  rewrite lookup_insert_ne by exact Hne. rewrite Hf.
  cbn [default from_option Datatypes.id]. by rewrite insert_insert_eq.
Qed.

(** X12: [create_backup] returns 0 exactly when the file exists and the
    backup path can be opened for writing.  Then, the two paths being
    different, the backup path holds a copy of the file and every other path,
    the file itself included, is as before; otherwise nothing changes. *)
Theorem X12_create_backup_copies_the_file fs f :
  let r := create_backup fs f in
  (r.1 = 0 <-> file_exists fs f = true /\ backup_name f ∉ locked fs) /\
  (r.1 <> 0 -> r.1 = -1 /\ r.2 = fs) /\
  (r.1 = 0 -> backup_name f <> f ->
   files r.2 !! backup_name f = files fs !! f /\
   forall g, g <> backup_name f -> files r.2 !! g = files fs !! g) /\
  locked r.2 = locked fs.
Proof.
  cbv zeta. split; [|split; [|split; [|apply create_backup_locked]]].
  - unfold create_backup. destruct (file_exists fs f); cbn [negb fst];
      [|split; [discriminate|intros [? _]; discriminate]].
    case_bool_decide; cbn [fst]; [split; [discriminate|tauto]|tauto].
  - unfold create_backup. destruct (file_exists fs f); cbn [negb fst snd];
      [|done]. case_bool_decide; cbn [fst snd]; done.
  - intros Hr Hne.
    assert (file_exists fs f = true /\ backup_name f ∉ locked fs) as [He Hfree].
    { unfold create_backup in Hr. destruct (file_exists fs f); cbn [negb fst] in Hr;
        [|discriminate]. case_bool_decide; cbn [fst] in Hr; [discriminate|done]. }
    unfold file_exists in He. apply bool_decide_eq_true in He as [content Hf].
    rewrite (create_backup_found fs f content) by done. cbn [snd files].
    split; [by rewrite lookup_insert_eq|].
    intros g Hg. by rewrite lookup_insert_ne.
Qed.

(** X13: saving over an existing file whose path has at most 248
    characters first copies it: when both paths can be opened for writing,
    the save returns 0, "<path>.backup" holds the previous contents, byte
    for byte, and the path holds a new file that opens with the two
    counters of the list saved.  (Nothing is said of the bytes of the
    records behind the header, which include the padding of the struct as
    it lies in memory.) *)
Theorem X13_save_backs_up_the_previous_file l filename fs content :
  let f := default DEFAULT_FILENAME filename in
  files fs !! f = Some content ->
  (String.length f <= 248)%nat ->
  f ∉ locked fs -> (f +:+ ".backup") ∉ locked fs ->
  let saved := save_todos_to_file l filename fs in
  saved.1 = 0 /\
  files saved.2 !! (f +:+ ".backup") = Some content /\
  exists records,
    files saved.2 !! f
    = Some (encode_int (count l) ++ encode_int (next_id l) ++ records).
Proof.
  cbv zeta. intros Hf Hlen Hfree Hbfree.
  destruct (backup_name_short _ Hlen) as [Hb Hne]. rewrite <- Hb in *.
  pose proof (save_written l filename fs Hfree) as H. cbv zeta in H.
  destruct H as [H1 H2]. split; [exact H1|]. split; [|eexists; exact H2].
  unfold save_todos_to_file. cbv zeta.
  set (f := default DEFAULT_FILENAME filename) in *.
  unfold file_exists.
  rewrite (bool_decide_true (is_Some (files fs !! f))) by (exists content; exact Hf).
  rewrite (create_backup_found fs f content) by done. cbn [snd locked].
  rewrite bool_decide_false by exact Hfree. cbn [snd write_file files].
  rewrite lookup_insert_ne by done. apply lookup_insert_eq.
Qed.

Lemma X13_witness :
  let fs1 := (save_todos_to_file sample2 None fs0).2 in
  let saved := save_todos_to_file fresh0 None fs1 in
  saved.1 = 0 /\
  files saved.2 !! "data/todos.dat.backup"%string = files fs1 !! DEFAULT_FILENAME.
Proof.
  set (fs1 := (save_todos_to_file sample2 None fs0).2).
  destruct (files fs1 !! DEFAULT_FILENAME) as [content|] eqn:Hf;
    [|exfalso; revert Hf; by_evaluation].
  assert (default DEFAULT_FILENAME None ∉ locked fs1) as Hfree
    by (vm_compute; set_solver).
  assert ((default DEFAULT_FILENAME None +:+ ".backup") ∉ locked fs1) as Hbfree
    by (vm_compute; set_solver).
  assert (String.length (default DEFAULT_FILENAME None) <= 248)%nat as Hlen
    by (vm_compute; lia).
  destruct (X13_save_backs_up_the_previous_file fresh0 None fs1 content
              Hf Hlen Hfree Hbfree) as (H1 & H2 & _).
  cbv zeta. split; [exact H1|]. rewrite Hf. exact H2.
Defined.

(** The file operations of a save write to no path but the target and the
    target's backup path. *)
Lemma save_frame l filename fs :
  let f := default DEFAULT_FILENAME filename in
  let saved := save_todos_to_file l filename fs in
  (forall g, g <> f -> g <> backup_name f -> files saved.2 !! g = files fs !! g) /\
  locked saved.2 = locked fs /\
  (f ∈ locked fs ->
   saved.1 = -1 /\ (backup_name f <> f -> files saved.2 !! f = files fs !! f)).
Proof.
  cbv zeta. set (f := default DEFAULT_FILENAME filename).
  assert (forall g, g <> backup_name f ->
            files (create_backup fs f).2 !! g = files fs !! g) as Hb.
  { intros g Hg. unfold create_backup.
    destruct (negb (file_exists fs f)); [reflexivity|].
    case_bool_decide; [reflexivity|]. cbn [snd write_file files].
    by rewrite !lookup_insert_ne. }
  unfold save_todos_to_file. cbv zeta. fold f.
  set (fs1 := if file_exists fs f then (create_backup fs f).2 else fs).
  assert (locked fs1 = locked fs) as Hl.
  { subst fs1. destruct (file_exists fs f); [apply create_backup_locked|reflexivity]. }
  assert (forall g, g <> backup_name f -> files fs1 !! g = files fs !! g) as Hfs1.
  { intros g Hg. subst fs1. destruct (file_exists fs f); [by apply Hb|reflexivity]. }
  split; [|split].
  - intros g Hgf Hgb. case_bool_decide; cbn [snd write_file files].
    + by apply Hfs1.
    + rewrite lookup_insert_ne by done. by apply Hfs1.
  - case_bool_decide; cbn [snd write_file locked]; exact Hl.
  - intros Hlocked. rewrite bool_decide_true by (rewrite Hl; exact Hlocked).
    cbn [fst snd]. split; [reflexivity|]. intros Hne. apply Hfs1. congruence.
Qed.

(** X14: a save changes the contents of no file but its target and the
    target's backup.  Besides, it makes the data directory when that is
    missing and can be made, which is the only way it changes what can be
    opened: afterwards the directory is there unless it could not be made.
    When the target cannot be opened for writing once the directory step
    is done, the save returns -1 and the target, unless it is its own backup
    path, keeps its contents. *)
Theorem X14_save_changes_two_files_and_the_data_directory l filename d :
  let f := default DEFAULT_FILENAME filename in
  let ready := (ensure_data_directory d).2 in
  let saved := save_todos_to_disk l filename d in
  (forall g, g <> f -> g <> backup_name f ->
     files (on_disk saved.2) !! g = files (on_disk d) !! g) /\
  locked (on_disk saved.2) = locked (on_disk ready) /\
  data_directory saved.2 = data_directory ready /\
  (data_directory saved.2 = DirPresent \/
   data_directory d = DirBlocked /\ locked (on_disk saved.2) = locked (on_disk d)) /\
  (f ∈ locked (on_disk ready) ->
   saved.1 = -1 /\
   (backup_name f <> f -> files (on_disk saved.2) !! f = files (on_disk d) !! f)).
Proof.
  cbv zeta.
  assert (files (on_disk (ensure_data_directory d).2) = files (on_disk d)) as Hfiles
    by (unfold ensure_data_directory; by destruct (data_directory d)).
  unfold save_todos_to_disk.
  destruct (ensure_data_directory d) as [r0 d1] eqn:Hensure. cbn [snd] in *.
  pose proof (save_frame l filename (on_disk d1)) as H. cbv zeta in H.
  destruct (save_todos_to_file l filename (on_disk d1)) as [r fs1].
  cbn [fst snd on_disk data_directory] in *.
  destruct H as (Hframe & Hlocked & Hfail).
  split; [intros g Hg Hb; rewrite <- Hfiles; by apply Hframe|].
  split; [exact Hlocked|]. split; [reflexivity|]. split.
  - unfold ensure_data_directory in Hensure.
    destruct (data_directory d) eqn:Hdir; injection Hensure as <- <-;
      cbn [data_directory on_disk]; [by left|by left|].
    right. split; [reflexivity|exact Hlocked].
  - intros Hf. destruct (Hfail Hf) as [Hr Hkeep]. split; [exact Hr|].
    intros Hne. rewrite <- Hfiles. by apply Hkeep.
Qed.

(** X15: the file a save leaves for a store whose live records fit the
    block is the 8-byte header followed by one 632-byte block per live
    record. *)
Theorem X15_saved_file_size l filename fs :
  store_ok l -> Forall todo_fits (live l) ->
  default DEFAULT_FILENAME filename ∉ locked fs ->
  exists bytes,
    files (save_todos_to_file l filename fs).2 !! default DEFAULT_FILENAME filename
      = Some bytes /\
    Z.of_nat (length bytes) = 8 + 632 * count l.
Proof.
  intros Hok Hfit Hfree.
  pose proof (save_written l filename fs Hfree) as H. cbv zeta in H.
  destruct H as [_ H]. eexists. split; [exact H|].
  pose proof (length_live l Hok) as Hlen.
  rewrite !length_app, !length_encode_int.
  assert (forall ts, Forall todo_fits ts ->
            length (concat (map encode_todo ts)) = (632 * length ts)%nat) as Hsize.
  { induction 1 as [|t ts Ht _ IH]; [reflexivity|].
    cbn [map concat]. rewrite length_app, IH, (length_encode_todo t Ht).
    unfold SIZEOF_TODO. simpl length. lia. }
  destruct (Z.gtb_spec (count l) 0).
  - rewrite Hsize by exact Hfit. lia.
  - destruct Hok. simpl length. lia.
Qed.

Lemma X15_witness :
  exists bytes,
    files (save_todos_to_file sample2 None fs0).2 !! DEFAULT_FILENAME = Some bytes /\
    Z.of_nat (length bytes) = 1272.
Proof.
  assert (default DEFAULT_FILENAME None ∉ locked fs0) as Hfree
    by (vm_compute; set_solver).
  destruct (X15_saved_file_size sample2 None fs0 sample2_ok sample2_fits Hfree)
    as (bytes & H1 & H2).
  exists bytes. split; [exact H1|]. rewrite H2. by_evaluation.
Defined.

(** X16: whatever the file holds, [load_todos_from_file] into a
    well-formed list of [MAX_TODOS] slots leaves a well-formed list: the
    count it accepts lies between 0 and the capacity.  It returns 0 or -1,
    and when it returns -1 the count and the next-ID counter of the list are
    the ones it had. *)
Theorem X16_load_keeps_the_list_well_formed l filename fs :
  store_ok l -> capacity l = MAX_TODOS ->
  let r := load_todos_from_file l filename fs in
  store_ok r.2 /\ capacity r.2 = MAX_TODOS /\
  (r.1 = 0 \/ r.1 = -1) /\
  (r.1 = -1 -> count r.2 = count l /\ next_id r.2 = next_id l).
Proof.
  intros Hok Hcap. pose proof Hok as [H0 H1 H2 H3]. cbv zeta.
  unfold load_todos_from_file. cbv zeta.
  destruct (negb (file_exists fs _)); [cbn [fst snd]; by auto 6|].
  destruct (_ <? _)%nat; [cbn [fst snd]; by auto 6|].
  set (saved_count := decode_int _). set (saved_next_id := decode_int _).
  destruct (Z.ltb_spec saved_count 0) as [?|Hlo]; [cbn [orb fst snd]; by auto 6|].
  destruct (Z.gtb_spec saved_count MAX_TODOS) as [?|Hhi];
    [cbn [orb fst snd]; by auto 6|].
  cbn [orb]. set (items := if saved_count >? 0 then _ else []).
  assert (length items <= Z.to_nat saved_count)%nat as Hitems.
  { subst items. destruct (saved_count >? 0); [apply length_fread_todos|simpl; lia]. }
  assert (length (items ++ drop (length items) (todos l)) = length (todos l)) as Hlen.
  { rewrite length_app, length_drop. lia. }
  destruct (Z.eqb_spec (Z.of_nat (length items)) saved_count) as [E|E];
    cbn [negb fst snd].
  - split; [|split; [exact Hcap|split; [by left|discriminate]]].
    split; cbn [todos count capacity]; rewrite ?Hlen; lia.
  - split; [|split; [exact Hcap|split; [by right|by intros _]]].
    split; cbn [todos count capacity]; rewrite ?Hlen; lia.
Qed.

Lemma X16_witness :
  let truncated :=
    mkFileSystem {[ DEFAULT_FILENAME := encode_int 3 ++ encode_int 9 ]} ∅ in
  let r := load_todos_from_file sample2 None truncated in
  store_ok r.2 /\ r.1 = -1 /\ count r.2 = 2 /\ next_id r.2 = 3.
Proof.
  cbv zeta.
  destruct (X16_load_keeps_the_list_well_formed sample2 None
              (mkFileSystem {[ DEFAULT_FILENAME := encode_int 3 ++ encode_int 9 ]} ∅)
              sample2_ok eq_refl) as (H1 & _ & _ & H2).
  assert ((load_todos_from_file sample2 None
             (mkFileSystem {[ DEFAULT_FILENAME := encode_int 3 ++ encode_int 9 ]} ∅)).1
          = -1) as Hr by by_evaluation.
  destruct (H2 Hr) as [H3 H4].
  split; [exact H1|]. split; [exact Hr|]. split; [exact H3|exact H4].
Defined.

(** X17: a file whose header announces a negative record count, or more
    than [MAX_TODOS] records, is refused whatever follows the header: the
    load returns -1 and the list is exactly as it was. *)
Theorem X17_load_refuses_a_count_out_of_range l filename fs c n body :
  in_int c -> c < 0 \/ MAX_TODOS < c ->
  files fs !! default DEFAULT_FILENAME filename
    = Some (encode_int c ++ encode_int n ++ body) ->
  load_todos_from_file l filename fs = (-1, l).
Proof.
  intros Hc Hout Hf. unfold load_todos_from_file, file_exists. cbv zeta.
  rewrite Hf. rewrite bool_decide_true by eauto.
  cbn [negb default from_option Datatypes.id].
  destruct (Nat.ltb_spec (length (encode_int c ++ encode_int n ++ body))
              (2 * SIZEOF_INT)) as [_|_]; [reflexivity|].
  rewrite field_first by apply length_encode_int.
  rewrite decode_encode_int by exact Hc.
  destruct (Z.ltb_spec c 0), (Z.gtb_spec c MAX_TODOS); try reflexivity. lia.
Qed.

Lemma X17_witness :
  load_todos_from_file sample2 None
    (mkFileSystem {[ DEFAULT_FILENAME := encode_int 1001 ++ encode_int 1 ++ [] ]} ∅)
  = (-1, sample2).
Proof.
  apply (X17_load_refuses_a_count_out_of_range sample2 None _ 1001 1 []).
  - by_evaluation.
  - right. by_evaluation.
  - by_evaluation.
Defined.

(** * The input layer of main.c *)

Lemma strlen_le_length s : strlen s <= Z.of_nat (length s).
Proof.
  induction s as [|b s IH]; simpl; [lia|]. destruct (is_nul b); lia.
Qed.

Lemma length_strip_newline s : length (strip_newline s) = length s.
Proof.
  induction s as [|b s IH]; simpl; [reflexivity|].
  destruct (is_nul b); [reflexivity|]. destruct (is_newline b); simpl; by rewrite ?IH.
Qed.

Lemma fgets_chars_spec n : forall stdin,
  let r := fgets_chars n stdin in
  r.1 ++ r.2 = stdin /\ (length r.1 <= n)%nat /\
  (last r.1 = Some Byte.x0a \/ length r.1 = n \/ r.2 = []) /\
  Forall (fun b => is_newline b = false) (removelast r.1).
Proof.
  induction n as [|n IH]; intros stdin; cbv zeta.
  - simpl. destruct stdin; simpl; repeat split; auto.
  - destruct stdin as [|b rest]; [simpl; repeat split; auto with lia|].
    cbn [fgets_chars]. destruct (is_newline b) eqn:Eb.
    + cbn [fst snd]. apply Byte.byte_dec_bl in Eb. subst b.
      simpl. repeat split; auto with lia.
    + specialize (IH rest). cbv zeta in IH.
      destruct (fgets_chars n rest) as [line rest'] eqn:E. cbn [fst snd] in *.
      destruct IH as (H1 & H2 & H3 & H4).
      split; [simpl; by rewrite H1|]. split; [simpl; lia|]. split.
      * destruct H3 as [H3|[H3|H3]]; [left|right; left|right; right].
        -- destruct line; [discriminate|]. exact H3.
        -- simpl. by rewrite H3.
        -- exact H3.
      * destruct line as [|c line]; [constructor|].
        change (removelast (b :: c :: line)) with (b :: removelast (c :: line)).
        by constructor.
Qed.

(** [fgets] loses and invents nothing: the bytes it stores followed
    by the input it leaves are the input it was given.  It stores at most
    [size - 1] bytes, stops because it stored a newline, filled the buffer
    or reached the end of the input, and stores no newline before the last
    byte; on empty input it returns NULL. *)
Lemma fgets_splits_the_input size stdin :
  match fgets size stdin with
  | None => stdin = []
  | Some (line, rest) =>
      line ++ rest = stdin /\ Z.of_nat (length line) <= Z.max 0 (size - 1) /\
      (last line = Some Byte.x0a \/ length line = Z.to_nat (size - 1) \/ rest = []) /\
      Forall (fun b => is_newline b = false) (removelast line)
  end.
Proof.
  unfold fgets. destruct stdin as [|b stdin]; [reflexivity|].
  pose proof (fgets_chars_spec (Z.to_nat (size - 1)) (b :: stdin)) as H.
  cbv zeta in H. destruct (fgets_chars _ _) as [line rest]. cbn [fst snd] in H.
  destruct H as (H1 & H2 & H3 & H4). repeat split; try done. lia.
Qed.

Lemma fgets_Some size stdin line rest :
  fgets size stdin = Some (line, rest) ->
  line ++ rest = stdin /\ Z.of_nat (length line) <= Z.max 0 (size - 1).
Proof.
  intros E. pose proof (Hspec := fgets_chars_spec (Z.to_nat (size - 1)) stdin).
  unfold fgets in E. destruct stdin as [|b stdin]; [discriminate|].
  injection E as E. cbv zeta in Hspec. rewrite E in Hspec.
  cbn [fst snd] in Hspec. destruct Hspec as (H1 & H2 & _). split; [done|lia].
Qed.

Lemma get_string_input_loop_spec n max_length : forall stdin,
  8 <= max_length ->
  let r := get_string_input_loop n max_length stdin in
  0 < strlen r.1 < max_length /\ r.2 `suffix_of` stdin.
Proof.
  induction n as [|n IH]; intros stdin Hmax; cbv zeta.
  - cbn [get_string_input_loop fst snd]. split; [|done].
    change (strlen (text "Default")) with 7. lia.
  - cbn [get_string_input_loop].
    destruct (fgets max_length stdin) as [[line rest]|] eqn:E.
    + apply fgets_Some in E as [E1 E2].
      destruct (Z.gtb_spec (strlen (strip_newline line)) 0) as [Hpos|Hzero].
      * cbn [fst snd]. split; [|exists line; by rewrite E1].
        pose proof (strlen_le_length (strip_newline line)).
        rewrite length_strip_newline in *. lia.
      * specialize (IH rest Hmax). cbv zeta in IH. destruct IH as [IH1 IH2].
        split; [exact IH1|]. etransitivity; [exact IH2|].
        exists line. by rewrite E1.
    + cbn [fst snd]. split; [|done].
      change (strlen (text "Default")) with 7. lia.
Qed.

Lemma get_integer_input_loop_suffix n : forall stdin,
  (get_integer_input_loop n stdin).2 `suffix_of` stdin.
Proof.
  induction n as [|n IH]; intros stdin; cbn [get_integer_input_loop]; [done|].
  destruct (fgets 100 stdin) as [[buffer rest]|] eqn:E; [|done].
  apply fgets_Some in E as [E _].
  assert (rest `suffix_of` stdin) as Hrest by (exists buffer; by rewrite E).
  destruct (strtol buffer) as [value [endptr|]].
  - destruct (at_line_end endptr); [exact Hrest|].
    etransitivity; [apply IH|exact Hrest].
  - etransitivity; [apply IH|exact Hrest].
Qed.

Lemma get_priority_input_loop_spec n : forall stdin,
  let r := get_priority_input_loop n stdin in
  priority_in_range r.1 /\ r.2 `suffix_of` stdin.
Proof.
  induction n as [|n IH]; intros stdin; cbv zeta; cbn [get_priority_input_loop].
  - split; [by_evaluation|done].
  - pose proof (get_integer_input_loop_suffix 10 stdin) as Hrest.
    fold (get_integer_input stdin) in Hrest.
    destruct (get_integer_input stdin) as [choice rest]. cbn [snd] in Hrest.
    destruct (Z.eqb_spec choice (-1)); [split; [by_evaluation|exact Hrest]|].
    destruct (Z.geb_spec choice 1); cbn [andb].
    + destruct (Z.leb_spec choice 3).
      * split; [cbn [fst]; unfold priority_in_range, PRIORITY_LOW, PRIORITY_HIGH; lia
               |exact Hrest].
      * specialize (IH rest). cbv zeta in IH. destruct IH as [IH1 IH2].
        split; [exact IH1|by etransitivity].
    + specialize (IH rest). cbv zeta in IH. destruct IH as [IH1 IH2].
      split; [exact IH1|by etransitivity].
Qed.

Lemma list_byte_of_string_cons a s :
  list_byte_of_string (String a s) = Ascii.byte_of_ascii a :: list_byte_of_string s.
Proof. reflexivity. Qed.

Ltac read_digit :=
  cbn [NilEmpty.string_of_uint]; rewrite list_byte_of_string_cons;
  cbn [app read_digits Ascii.byte_of_ascii];
  match goal with
  | |- context [is_digit ?b] =>
      let b' := eval vm_compute in b in
      change b with b'; change (is_digit b') with true; cbv iota;
      let v := eval vm_compute in (byte.unsigned b' - 48) in
      change (byte.unsigned b' - 48) with v
  end.

Lemma read_digits_acc u : forall p,
  read_digits (list_byte_of_string (NilEmpty.string_of_uint u) ++ [Byte.x0a]) (Z.pos p)
  = (Z.pos (Pos.of_uint_acc u p), [Byte.x0a]).
Proof.
  induction u as [|u IH|u IH|u IH|u IH|u IH|u IH|u IH|u IH|u IH|u IH]; intros p;
    [reflexivity|..]; read_digit; cbn [Pos.of_uint_acc]; rewrite <- IH; f_equal; lia.
Qed.

Lemma read_digits_uint u :
  read_digits (list_byte_of_string (NilEmpty.string_of_uint u) ++ [Byte.x0a]) 0
  = (Z.of_N (Pos.of_uint u), [Byte.x0a]).
Proof.
  induction u as [|u IH|u IH|u IH|u IH|u IH|u IH|u IH|u IH|u IH|u IH];
    [reflexivity|..]; read_digit; cbn [Pos.of_uint Z.of_N];
    [exact IH|..]; rewrite <- read_digits_acc; f_equal.
Qed.

Lemma strtol_digit b s :
  is_digit b = true ->
  strtol (b :: s) = (clamp_long (read_digits (b :: s) 0).1, Some (read_digits (b :: s) 0).2).
Proof.
  intros Hb. destruct b; try discriminate Hb; unfold strtol; cbn [skip_spaces];
    match goal with
    | |- context [is_space ?b] => change (is_space b) with false; cbv iota
    end;
    match goal with
    | |- context [Byte.eqb ?b Byte.x2d] =>
        change (Byte.eqb b Byte.x2d) with false; change (Byte.eqb b Byte.x2b) with false;
        cbv iota
    end; rewrite Hb; by destruct (read_digits _ 0).
Qed.

Lemma strtol_minus_digit b s :
  is_digit b = true ->
  strtol (Byte.x2d :: b :: s)
  = (clamp_long (- (read_digits (b :: s) 0).1), Some (read_digits (b :: s) 0).2).
Proof.
  intros Hb. unfold strtol. cbn [skip_spaces].
  change (is_space Byte.x2d) with false. cbv iota.
  change (Byte.eqb Byte.x2d Byte.x2d) with true. cbv iota.
  rewrite Hb. by destruct (read_digits _ 0).
Qed.

Lemma uint_bytes u :
  exists b s, list_byte_of_string (NilZero.string_of_uint u) = b :: s /\
    is_digit b = true /\ Forall (fun c => is_newline c = false) (b :: s).
Proof.
  assert (forall v, Forall (fun c => is_newline c = false)
                      (list_byte_of_string (NilEmpty.string_of_uint v))) as Hall.
  { induction v; cbn [NilEmpty.string_of_uint]; rewrite ?list_byte_of_string_cons;
      constructor; done. }
  destruct u; cbn [NilZero.string_of_uint];
    try (pose proof (Hall u) as H);
    (eexists _, _; split; [apply list_byte_of_string_cons|]; split; [reflexivity|]);
    [by repeat constructor|..]; constructor; try done.
Qed.

Lemma read_digits_zero_uint u :
  read_digits (list_byte_of_string (NilZero.string_of_uint u) ++ [Byte.x0a]) 0
  = (Z.of_uint u, [Byte.x0a]).
Proof.
  destruct u; try apply read_digits_uint. reflexivity.
Qed.

Lemma strtol_typed d :
  strtol (typed_line (NilZero.string_of_int d))
  = (clamp_long (Z.of_int d), Some [Byte.x0a]).
Proof.
  unfold typed_line. destruct d as [u|u]; cbn [NilZero.string_of_int Z.of_int].
  - pose proof (read_digits_zero_uint u) as Hread.
    destruct (uint_bytes u) as (b & s & E & Hb & _). rewrite E in *.
    cbn [app] in *. rewrite strtol_digit by exact Hb. by rewrite Hread.
  - pose proof (read_digits_zero_uint u) as Hread.
    destruct (uint_bytes u) as (b & s & E & Hb & _).
    rewrite list_byte_of_string_cons. rewrite E in *.
    cbn [app] in *. change (Ascii.byte_of_ascii _) with Byte.x2d.
    rewrite strtol_minus_digit by exact Hb. by rewrite Hread.
Qed.

Lemma int_bytes_no_newline d :
  Forall (fun c => is_newline c = false) (list_byte_of_string (NilZero.string_of_int d)).
Proof.
  destruct d as [u|u]; cbn [NilZero.string_of_int];
    destruct (uint_bytes u) as (b & s & E & _ & H).
  - by rewrite E.
  - rewrite list_byte_of_string_cons, E. by constructor.
Qed.

Lemma fgets_chars_line line rest : forall n,
  Forall (fun c => is_newline c = false) line -> (length line < n)%nat ->
  fgets_chars n (line ++ Byte.x0a :: rest) = (line ++ [Byte.x0a], rest).
Proof.
  induction line as [|b line IH]; intros n Hall Hn.
  - destruct n; [simpl in Hn; lia|]. reflexivity.
  - destruct n; [simpl in Hn; lia|]. inversion Hall as [|? ? Hb Hall']; subst.
    cbn [app fgets_chars]. rewrite Hb, IH; [reflexivity|exact Hall'|simpl in Hn; lia].
Qed.

Lemma fgets_typed_line size line rest :
  Forall (fun c => is_newline c = false) line ->
  Z.of_nat (length line) + 1 < size ->
  fgets size (line ++ Byte.x0a :: rest) = Some (line ++ [Byte.x0a], rest).
Proof.
  intros Hall Hsize. unfold fgets.
  rewrite fgets_chars_line by (done || lia). by destruct line.
Qed.

Lemma get_integer_input_typed z rest :
  Z.of_nat (length (typed_line (show_int z))) < 100 ->
  get_integer_input (typed_line (show_int z) ++ rest) = (wrap_int (clamp_long z), rest).
Proof.
  intros Hlen. unfold get_integer_input. cbn [get_integer_input_loop].
  pose proof (strtol_typed (Z.to_int z)) as Hstrtol.
  unfold show_int, typed_line in *. rewrite length_app in Hlen. cbn [length] in Hlen.
  rewrite <- app_assoc. cbn [app].
  rewrite fgets_typed_line by (apply int_bytes_no_newline || lia).
  rewrite Hstrtol. cbn [at_line_end]. change (is_newline Byte.x0a) with true.
  cbn [orb]. by rewrite DecimalZ.of_to.
Qed.

(** X20: a number typed in decimal on a line of its own (the line fits the
    100-byte buffer) is read at the first attempt and nothing else is
    consumed.  The value is the number typed when it is an [int]; otherwise
    it is what the conversion of [strtol]'s [long] to [int] leaves: the
    number cut to the range of [long], then to its low 32 bits. *)
Theorem X20_get_integer_input_reads_a_typed_number z rest :
  Z.of_nat (length (typed_line (show_int z))) < 100 ->
  get_integer_input (typed_line (show_int z) ++ rest) = (wrap_int (clamp_long z), rest)
  /\ (in_int z -> get_integer_input (typed_line (show_int z) ++ rest) = (z, rest)).
Proof.
  intros Hlen. rewrite get_integer_input_typed by exact Hlen.
  split; [reflexivity|]. intros Hz. f_equal.
  assert (clamp_long z = z) as ->
    by (unfold clamp_long, LONG_MIN, LONG_MAX; c_bounds).
  by apply wrap_int_id.
Qed.

Lemma X20_witness :
  get_integer_input (typed_line "-42" ++ typed_line "7") = (-42, typed_line "7")
  /\ get_integer_input (typed_line "99999999999999999999") = (-1, []).
Proof.
  split.
  - apply (X20_get_integer_input_reads_a_typed_number (-42) (typed_line "7"));
      by_evaluation.
  - assert (Z.of_nat (length (typed_line (show_int 99999999999999999999))) < 100)
      as Hlen by by_evaluation.
    destruct (X20_get_integer_input_reads_a_typed_number 99999999999999999999 []
                Hlen) as [H _].
    rewrite app_nil_r in H. exact H.
Defined.

Lemma strip_newline_typed s :
  plain_text s -> strip_newline (s ++ [Byte.x0a]) = s ++ [Byte.x00].
Proof.
  induction 1 as [|b s [Hnul Hnl] _ IH]; [reflexivity|].
  cbn [app strip_newline]. by rewrite Hnul, Hnl, IH.
Qed.

Lemma strlen_plain_text s tail :
  plain_text s -> strlen (s ++ Byte.x00 :: tail) = Z.of_nat (length s).
Proof.
  induction 1 as [|b s [Hnul _] _ IH]; [reflexivity|].
  cbn [app strlen length]. rewrite Hnul, IH. lia.
Qed.

Lemma get_string_input_loop_typed n max_length s rest :
  plain_text s -> s <> [] -> Z.of_nat (length s) + 1 < max_length ->
  get_string_input_loop (S n) max_length (s ++ Byte.x0a :: rest)
  = (s ++ [Byte.x00], rest).
Proof.
  intros Hs Hne Hlen. cbn [get_string_input_loop].
  rewrite fgets_typed_line; [|eapply Forall_impl; [exact Hs|by intros ? []]|exact Hlen].
  rewrite strip_newline_typed, strlen_plain_text by exact Hs.
  destruct s; [done|]. cbn [length].
  destruct (Z.gtb_spec (Z.of_nat (S (length s))) 0); [reflexivity|lia].
Qed.

Lemma get_string_input_loop_empty_line n max_length rest :
  2 <= max_length ->
  get_string_input_loop (S n) max_length (Byte.x0a :: rest)
  = get_string_input_loop n max_length rest.
Proof.
  intros Hmax. cbn [get_string_input_loop]. unfold fgets.
  destruct (Z.to_nat (max_length - 1)) as [|m] eqn:E; [lia|]. reflexivity.
Qed.

Lemma get_string_input_loop_empty_lines k : forall n max_length rest,
  2 <= max_length ->
  get_string_input_loop (k + n) max_length (replicate k Byte.x0a ++ rest)
  = get_string_input_loop n max_length rest.
Proof.
  induction k as [|k IH]; intros n max_length rest Hmax; [reflexivity|].
  cbn [Nat.add replicate app]. rewrite get_string_input_loop_empty_line by exact Hmax.
  by apply IH.
Qed.

(** X18: [get_string_input] with a buffer of at least 8 bytes never hands
    back an empty string.  Whatever is typed, the string is not empty and
    fits the buffer with its terminator, and what is left of the input is a
    tail of what was given.  An empty line is asked for again: after up to
    four of them, a line of plain text that fits the buffer is handed back
    without its newline, and the input behind it is left.  Five empty
    lines, or the end of the input after fewer, give "Default". *)
Theorem X18_get_string_input_is_never_empty max_length :
  8 <= max_length ->
  (forall stdin,
     let r := get_string_input max_length stdin in
     0 < strlen r.1 < max_length /\ r.2 `suffix_of` stdin) /\
  (forall k s rest,
     (k <= 4)%nat -> plain_text s -> s <> [] ->
     Z.of_nat (length s) + 1 < max_length ->
     get_string_input max_length (replicate k Byte.x0a ++ s ++ Byte.x0a :: rest)
     = (s ++ [Byte.x00], rest)) /\
  (forall rest,
     get_string_input max_length (replicate 5 Byte.x0a ++ rest)
     = (text "Default", rest)) /\
  (forall k, (k <= 4)%nat ->
     get_string_input max_length (replicate k Byte.x0a) = (text "Default", [])).
Proof.
  intros Hmax. split; [intros stdin; by apply get_string_input_loop_spec|].
  unfold get_string_input. split; [|split].
  - intros k s rest Hk Hs Hne Hlen.
    replace 5%nat with (k + S (4 - k))%nat by lia.
    rewrite get_string_input_loop_empty_lines by lia.
    by apply get_string_input_loop_typed.
  - intros rest.
    change 5%nat with (5 + 0)%nat at 1.
    rewrite (get_string_input_loop_empty_lines 5 0 max_length rest) by lia.
    reflexivity.
  - intros k Hk. replace 5%nat with (k + S (4 - k))%nat by lia.
    rewrite <- (app_nil_r (replicate k Byte.x0a)).
    rewrite get_string_input_loop_empty_lines by lia. reflexivity.
Qed.

Lemma X18_witness :
  get_string_input MAX_TITLE_LENGTH
    (typed_line "" ++ typed_line "Buy milk" ++ typed_line "2")
  = (text "Buy milk" ++ [Byte.x00], typed_line "2").
Proof.
  assert (8 <= MAX_TITLE_LENGTH) as Hmax by by_evaluation.
  destruct (X18_get_string_input_is_never_empty MAX_TITLE_LENGTH Hmax)
    as (_ & H & _).
  apply (H 1%nat (text "Buy milk") (typed_line "2")).
  - lia.
  - repeat constructor.
  - discriminate.
  - by_evaluation.
Defined.

Lemma get_priority_input_loop_typed n z rest :
  in_int z -> Z.of_nat (length (typed_line (show_int z))) < 100 ->
  get_priority_input_loop (S n) (typed_line (show_int z) ++ rest) =
    if z =? -1 then (PRIORITY_MEDIUM, rest)
    else if (z >=? 1) && (z <=? 3) then (z, rest)
    else get_priority_input_loop n rest.
Proof.
  intros Hz Hlen. cbn [get_priority_input_loop].
  rewrite get_integer_input_typed by exact Hlen.
  assert (clamp_long z = z) as ->
    by (unfold clamp_long, LONG_MIN, LONG_MAX; c_bounds).
  by rewrite wrap_int_id.
Qed.

Lemma get_priority_input_loop_wrong ws : forall n rest,
  Forall wrong_priority ws ->
  get_priority_input_loop (length ws + n) (typed_numbers ws ++ rest)
  = get_priority_input_loop n rest.
Proof.
  induction ws as [|w ws IH]; intros n rest Hws; [reflexivity|].
  apply Forall_cons in Hws as [[Hint Heof Hrange Hline] Hws].
  unfold typed_numbers. cbn [map concat length Nat.add].
  rewrite <- app_assoc. rewrite get_priority_input_loop_typed by done.
  destruct (Z.eqb_spec w (-1)); [done|].
  unfold priority_in_range, PRIORITY_LOW, PRIORITY_HIGH in Hrange.
  destruct (Z.geb_spec w 1); destruct (Z.leb_spec w 3); cbn [andb];
    try lia; by apply IH.
Qed.

Lemma priority_line p :
  priority_in_range p ->
  in_int p /\ Z.of_nat (length (typed_line (show_int p))) < 100.
Proof.
  unfold priority_in_range, PRIORITY_LOW, PRIORITY_HIGH. intros H.
  assert (p = 1 \/ p = 2 \/ p = 3) as [-> | [-> | ->]] by lia; by_evaluation.
Qed.

(** X19: [get_priority_input] always returns one of the three priorities.
    Whatever is typed, the result is Low, Medium or High and what is left of
    the input is a tail of what was given.  A number that is neither a
    priority nor -1 is asked for again: after up to four of them, a
    priority typed on its line is returned as typed, while the number -1 or
    the end of the input gives Medium; five such numbers give Medium,
    and nothing behind them is read. *)
Theorem X19_get_priority_input_is_a_priority :
  (forall stdin,
     let r := get_priority_input stdin in
     priority_in_range r.1 /\ r.2 `suffix_of` stdin) /\
  (forall ws, Forall wrong_priority ws -> (length ws <= 4)%nat ->
     (forall p rest, priority_in_range p ->
        get_priority_input (typed_numbers ws ++ typed_line (show_int p) ++ rest)
        = (p, rest)) /\
     (forall rest,
        get_priority_input (typed_numbers ws ++ typed_line (show_int (-1)) ++ rest)
        = (PRIORITY_MEDIUM, rest)) /\
     get_priority_input (typed_numbers ws) = (PRIORITY_MEDIUM, [])) /\
  (forall ws rest, Forall wrong_priority ws -> length ws = 5%nat ->
     get_priority_input (typed_numbers ws ++ rest) = (PRIORITY_MEDIUM, rest)).
Proof.
  split; [intros stdin; apply get_priority_input_loop_spec|].
  unfold get_priority_input. split.
  - intros ws Hws Hlen.
    replace 5%nat with (length ws + S (4 - length ws))%nat by lia.
    split; [|split].
    + intros p rest Hp. rewrite get_priority_input_loop_wrong by exact Hws.
      destruct (priority_line p Hp) as [Hint Hline].
      rewrite get_priority_input_loop_typed by done.
      unfold priority_in_range, PRIORITY_LOW, PRIORITY_HIGH in Hp.
      destruct (Z.eqb_spec p (-1)); [lia|].
      destruct (Z.geb_spec p 1); destruct (Z.leb_spec p 3); cbn [andb];
        try lia; reflexivity.
    + intros rest. rewrite get_priority_input_loop_wrong by exact Hws.
      rewrite get_priority_input_loop_typed by by_evaluation. reflexivity.
    + rewrite <- (app_nil_r (typed_numbers ws)).
      rewrite get_priority_input_loop_wrong by exact Hws. reflexivity.
  - intros ws rest Hws Hlen.
    replace 5%nat with (length ws + 0)%nat by lia.
    rewrite get_priority_input_loop_wrong by exact Hws. reflexivity.
Qed.

(** Five answers that are turned down. *)
Example wrong_priorities : Forall wrong_priority [0; 4; 7; -5; 100].
Proof.
  repeat (apply Forall_cons; split;
          [split; [c_bounds | lia
                  | unfold priority_in_range, PRIORITY_LOW, PRIORITY_HIGH; lia
                  | by_evaluation]|]).
  constructor.
Qed.

Lemma typed_title_ok stdin :
  let r := get_string_input MAX_TITLE_LENGTH stdin in
  0 < strlen r.1 < MAX_TITLE_LENGTH /\ r.2 `suffix_of` stdin.
Proof. apply get_string_input_loop_spec. by_evaluation. Qed.

Lemma typed_description_ok stdin line rest :
  fgets MAX_DESC_LENGTH stdin = Some (line, rest) ->
  strlen (strip_newline line) < MAX_DESC_LENGTH /\ rest `suffix_of` stdin.
Proof.
  intros E. apply fgets_Some in E as [E1 E2]. split; [|exists line; by rewrite E1].
  pose proof (strlen_le_length (strip_newline line)).
  rewrite length_strip_newline in *. unfold MAX_DESC_LENGTH in *. lia.
Qed.

Lemma optional_description_ok buf :
  strlen buf < MAX_DESC_LENGTH ->
  description_ok (if strlen buf =? 0 then None else Some buf).
Proof. intros H. by destruct (strlen buf =? 0). Qed.

(** X21: a todo entered through the menu is always accepted when the list
    has room: the title the input layer hands over is not empty and shorter
    than the title buffer, the description line is shorter than the
    description buffer, and the priority is one of Low, Medium, High.  The
    call returns the next ID and appends one pending record with that ID.
    (At the end of input the description buffer is never written; its
    contents are then assumed to hold a terminated string.) *)
Theorem X21_typed_todo_is_created l stdin now uninit :
  store_ok l -> count l < capacity l -> strlen uninit < MAX_DESC_LENGTH ->
  let r := handle_create_todo l stdin now uninit in
  ret r.1 = next_id l /\ said r.1 = MsgCreated (next_id l) /\
  (exists t, live (store r.1) = live l ++ [t] /\ id t = next_id l /\
     0 < strlen (title t) < MAX_TITLE_LENGTH /\
     priority_in_range (priority t) /\ status t = STATUS_PENDING) /\
  r.2 `suffix_of` stdin.
Proof.
  intros Hok Hroom Huninit. cbv zeta. unfold handle_create_todo.
  pose proof (typed_title_ok stdin) as Htitle. cbv zeta in Htitle.
  destruct (get_string_input MAX_TITLE_LENGTH stdin) as [title_buf s1].
  cbn [fst snd] in Htitle. destruct Htitle as [Htitle Hs1].
  assert (exists description_buf s2,
    match fgets MAX_DESC_LENGTH s1 with
    | Some (line, rest) => (strip_newline line, rest)
    | None => (uninit, s1)
    end = (description_buf, s2) /\
    strlen description_buf < MAX_DESC_LENGTH /\ s2 `suffix_of` s1)
    as (description_buf & s2 & -> & Hdesc & Hs2).
  { destruct (fgets MAX_DESC_LENGTH s1) as [[line rest]|] eqn:E.
    - apply typed_description_ok in E as [E1 E2]. by eexists _, _.
    - by eexists _, _. }
  pose proof (get_priority_input_loop_spec 5 s2) as Hprio.
  fold (get_priority_input s2) in Hprio. cbv zeta in Hprio.
  destruct (get_priority_input s2) as [priority_arg s3].
  cbn [fst snd] in *. destruct Hprio as [Hprio Hs3].
  set (d := if strlen description_buf =? 0 then None else Some description_buf).
  assert (description_ok d) as Hd by by apply optional_description_ok.
  assert (title_ok title_buf) as Ht by (unfold title_ok; lia).
  rewrite create_accepted by done. cbn [ret said store].
  split; [reflexivity|]. split; [reflexivity|]. split.
  - exists (created_todo l title_buf d priority_arg now). split.
    + pose proof (create_live l title_buf d priority_arg now Hok Hroom Ht Hd) as E.
      rewrite create_accepted in E by done. exact E.
    + destruct (create_stores_arguments l title_buf d priority_arg now Ht Hd)
        as [E _].
      rewrite (strlen_c_string (title _)), E, <- strlen_c_string.
      split; [reflexivity|]. split; [unfold title_ok in Ht; lia|].
      split; [exact Hprio|reflexivity].
  - etransitivity; [exact Hs3|]. by etransitivity.
Qed.

Lemma X21_witness :
  let r := handle_create_todo sample2
             (typed_line "" ++ typed_line "Water plants" ++ typed_line ""
              ++ typed_line "7" ++ typed_line "3") 1002 [] in
  ret r.1 = 3 /\ said r.1 = MsgCreated 3 /\ r.2 = [].
Proof.
  assert (count sample2 < capacity sample2) as Hroom by by_evaluation.
  assert (strlen [] < MAX_DESC_LENGTH) as Huninit by by_evaluation.
  destruct (X21_typed_todo_is_created sample2
              (typed_line "" ++ typed_line "Water plants" ++ typed_line ""
               ++ typed_line "7" ++ typed_line "3") 1002 [] sample2_ok Hroom Huninit)
    as (H1 & H2 & _ & _).
  cbv zeta. split; [exact H1|]. split; [exact H2|by_evaluation].
Defined.

Lemma update_accepted l x i t d p now :
  todo_find_by_id l x = Some i -> title_arg_ok t -> description_ok d ->
  let r := todo_update l x t d p now in
  ret r = 0 /\ said r = MsgUpdated x.
Proof.
  intros Hfind Ht Hd. cbv zeta. unfold todo_update. rewrite Hfind.
  destruct (update_title_ok (slot l i) t Ht) as [t1 Et]. rewrite Et.
  destruct (update_description_ok t1 d Hd) as [t2 Ed]. rewrite Ed. done.
Qed.

(** * What is printed: todo_read_all, todo_read_by_id, export_todos_to_text *)

Lemma strftime_into_fits strftime_local size format t :
  stamp_fits (strftime_local format) size t ->
  is_Some (strftime_into strftime_local size format t).
Proof.
  intros (s & E & Hlen). unfold strftime_into. rewrite E.
  destruct (Nat.ltb_spec (String.length s) size); [eauto|lia].
Qed.

Lemma ctime_into_fits ctime t :
  stamp_fits ctime 26 t -> is_Some (ctime_into ctime t).
Proof.
  intros (s & E & Hlen). unfold ctime_into. rewrite E.
  destruct (Nat.ltb_spec (String.length s) 26); [eauto|lia].
Qed.

Lemma show_field_terminated buf :
  terminated buf -> show_field buf = Some (show_buf buf).
Proof.
  unfold terminated, show_field. intros H.
  destruct (Z.ltb_spec (strlen buf) (Z.of_nat (length buf))); [reflexivity|lia].
Qed.

Lemma show_description_terminated buf :
  terminated buf -> is_Some (show_description buf).
Proof.
  intros H. unfold show_description. destruct (strlen buf =? 0); [eauto|].
  rewrite show_field_terminated by exact H. eauto.
Qed.

Lemma read_all_row_listed strftime_local t :
  listed strftime_local t -> is_Some (read_all_row strftime_local t).
Proof.
  intros [Hc Hu]. unfold read_all_row.
  destruct (strftime_into_fits _ _ _ _ Hc) as [c ->].
  destruct (strftime_into_fits _ _ _ _ Hu) as [u ->]. eauto.
Qed.

Lemma todo_read_all_listed strftime_local l :
  Forall (listed strftime_local) (live l) -> is_Some (todo_read_all strftime_local l).
Proof.
  intros Hall. unfold todo_read_all. destruct (count l =? 0); [eauto|].
  assert (is_Some (mapM (read_all_row strftime_local) (live l))) as [rows ->]; [|eauto].
  apply mapM_is_Some. eapply Forall_impl; [exact Hall|].
  intros t Ht. by apply read_all_row_listed.
Qed.

(** X22: an update made through the menu cannot fail validation.  When
    every live record can be listed (its two time stamps convert to local
    time and fit the 20-byte buffers of [todo_read_all], which the handler
    calls first), the handler returns, and it has called [todo_update] only
    for an ID it has found, with a title the input layer has bounded by the
    title buffer and a description line bounded by the description buffer:
    the call returns 0 with its success message, so neither validation
    error of [todo_update] can be reached this way.  Without a call the list
    was empty or the ID typed is unknown. *)
Theorem X22_typed_update_passes_validation strftime_local l stdin now input0 :
  Forall (listed strftime_local) (live l) ->
  exists r, handle_update_todo strftime_local l stdin now input0 = Some r /\
    match r.1 with
    | NothingToDo => count l = 0
    | UnknownId x => todo_find_by_id l x = None
    | Called o =>
        ret o = 0 /\ exists x, said o = MsgUpdated x /\ is_Some (todo_find_by_id l x)
    end.
Proof.
  intros Hlisted. unfold handle_update_todo.
  destruct (Z.eqb_spec (count l) 0) as [Hzero|_]; [by eexists|].
  destruct (todo_read_all_listed strftime_local l Hlisted) as [printed ->].
  destruct (get_integer_input stdin) as [x s1].
  destruct (todo_find_by_id l x) as [i|] eqn:Hfind; [|by eexists].
  destruct (fgets_into input0 10 s1) as [input1 s2].
  assert (exists new_title s3,
    (if answered_yes input1
     then let '(title_buf, s) := get_string_input MAX_TITLE_LENGTH s2 in
          (Some title_buf, s)
     else (None, s2)) = (new_title, s3) /\ title_arg_ok new_title)
    as (new_title & s3 & -> & Ht).
  { destruct (answered_yes input1); [|by eexists _, _].
    pose proof (typed_title_ok s2) as H. cbv zeta in H.
    destruct (get_string_input MAX_TITLE_LENGTH s2) as [title_buf s].
    eexists _, _. split; [reflexivity|]. cbn [title_arg_ok fst] in *.
    unfold title_ok. lia. }
  destruct (fgets_into input1 10 s3) as [input2 s4].
  assert (exists new_description s5,
    (if answered_yes input2
     then match fgets MAX_DESC_LENGTH s4 with
          | Some (line, rest) => (Some (strip_newline line), rest)
          | None => (None, s4)
          end
     else (None, s4)) = (new_description, s5) /\ description_ok new_description)
    as (new_description & s5 & -> & Hd).
  { destruct (answered_yes input2); [|by eexists _, _].
    destruct (fgets MAX_DESC_LENGTH s4) as [[line rest]|] eqn:E; [|by eexists _, _].
    apply typed_description_ok in E as [E _]. by eexists _, _. }
  destruct (fgets_into input2 10 s5) as [input3 s6].
  destruct (if answered_yes input3 then get_priority_input s6 else (-1, s6))
    as [new_priority s7].
  eexists. split; [reflexivity|]. cbn [fst].
  destruct (update_accepted l x i new_title new_description new_priority now
              Hfind Ht Hd) as [H1 H2].
  split; [exact H1|]. exists x. by split.
Qed.

Lemma sample2_listed : Forall (listed strftime0) (live sample2).
Proof.
  let ts := eval vm_compute in (live sample2) in change (live sample2) with ts.
  repeat (apply Forall_cons; split;
          [split; (eexists; split; [reflexivity|vm_compute; lia])|]).
  constructor.
Qed.

Lemma X22_witness :
  exists r,
    handle_update_todo strftime0 sample2
      (typed_line "2" ++ typed_line "y" ++ typed_line "Ring dentist"
       ++ typed_line "n" ++ typed_line "y" ++ typed_line "1") 1003 []
    = Some r /\
    match r.1 with
    | Called o => ret o = 0 /\ said o = MsgUpdated 2
    | _ => False
    end.
Proof.
  destruct (X22_typed_update_passes_validation strftime0 sample2
              (typed_line "2" ++ typed_line "y" ++ typed_line "Ring dentist"
               ++ typed_line "n" ++ typed_line "y" ++ typed_line "1") 1003 []
              sample2_listed) as (r & E & H).
  exists r. split; [exact E|].
  assert (exists o, r.1 = Called o /\ said o = MsgUpdated 2) as (o & Er & Hs).
  { vm_compute in E. injection E as <-. eexists. split; reflexivity. }
  rewrite Er in *. by destruct H as [H _].
Defined.




Lemma export_block_exported ctime t :
  exported ctime t -> is_Some (export_block ctime t).
Proof.
  intros [Hc Hu Ht Hd]. unfold export_block.
  destruct (ctime_into_fits _ _ Hc) as [c ->].
  destruct (ctime_into_fits _ _ Hu) as [u ->].
  rewrite (show_field_terminated _ Ht).
  destruct (show_description_terminated _ Hd) as [ds ->]. eauto.
Qed.




Lemma export_lines_exported ctime l now :
  is_Some (ctime now) -> Forall (exported ctime) (live l) ->
  is_Some (export_lines ctime l now).
Proof.
  intros [date Hdate] Hall. unfold export_lines. rewrite Hdate.
  destruct (count l =? 0); [eauto|].
  assert (is_Some (mapM (export_block ctime) (live l))) as [blocks ->]; [|eauto].
  apply mapM_is_Some. eapply Forall_impl; [exact Hall|].
  intros t Ht. by apply export_block_exported.
Qed.


Lemma sample2_exported : Forall (exported ctime0) (live sample2).
Proof.
  let ts := eval vm_compute in (live sample2) in change (live sample2) with ts.
  repeat (apply Forall_cons; split;
          [split; [eexists; split; [reflexivity|vm_compute; lia]
                  |eexists; split; [reflexivity|vm_compute; lia]
                  |by_evaluation|by_evaluation]|]).
  constructor.
Qed.


(** X24: an export writes one file and keeps no backup.  Under the
    conditions of X23 on the time stamps and strings, it returns 0 exactly
    when a file name is given and that path can be opened for writing once
    the directory step is done (made for a name that starts with "data/");
    the path then holds the exported lines, replacing what it held.
    Otherwise it returns -1.  The contents of no other file change, and what
    can be opened changes only through the directory step. *)
Theorem X24_export_writes_one_file ctime l filename now d :
  is_Some (ctime now) -> Forall (exported ctime) (live l) ->
  let ready := match filename with
               | Some f =>
                   if String.prefix "data/" f then (ensure_data_directory d).2 else d
               | None => d
               end in
  exists r ls,
    export_todos_to_text ctime l filename now d = Some r /\
    export_lines ctime l now = Some ls /\
    (r.1 = 0 <-> exists f, filename = Some f /\ f ∉ locked (on_disk ready)) /\
    (r.1 <> 0 -> r.1 = -1 /\ r.2 = ready) /\
    (forall f, r.1 = 0 -> filename = Some f ->
       files (on_disk r.2) !! f = Some (lines_to_bytes ls)) /\
    (forall g, filename <> Some g ->
       files (on_disk r.2) !! g = files (on_disk d) !! g) /\
    locked (on_disk r.2) = locked (on_disk ready) /\
    data_directory r.2 = data_directory ready.
Proof.
  intros Hnow Hall. cbv zeta.
  destruct (export_lines_exported ctime l now Hnow Hall) as [ls Hls].
  assert (forall f, files (on_disk (if String.prefix "data/" f
                                   then (ensure_data_directory d).2 else d))
                    = files (on_disk d)) as Hfiles.
  { intros f. destruct (String.prefix "data/" f); [|reflexivity].
    unfold ensure_data_directory. by destruct (data_directory d). }
  unfold export_todos_to_text. rewrite Hls. destruct filename as [f|].
  - cbv zeta. specialize (Hfiles f).
    set (d1 := if String.prefix "data/" f then (ensure_data_directory d).2 else d) in *.
    case_bool_decide as Hlocked.
    + exists (-1, d1), ls. cbn [fst snd].
      split; [reflexivity|]. split; [reflexivity|].
      split; [split; [discriminate|intros (g & [= <-] & Hg); contradiction]|].
      split; [done|]. split; [discriminate|]. split; [by rewrite Hfiles|done].
    + eexists _, ls. split; [reflexivity|].
      cbn [fst snd on_disk data_directory write_file files locked].
      split; [reflexivity|].
      split; [split; [by exists f|done]|]. split; [done|].
      split; [intros g _ [= <-]; by rewrite lookup_insert_eq|].
      split; [|done]. intros g Hg.
      rewrite lookup_insert_ne by congruence. by rewrite Hfiles.
  - exists (-1, d), ls. cbn [fst snd].
    split; [reflexivity|]. split; [reflexivity|].
    split; [split; [discriminate|intros (g & Hg & _); discriminate]|].
    split; [done|]. split; [discriminate|]. done.
Qed.

Lemma X24_witness :
  exists r,
    export_todos_to_text ctime0 sample2 (Some "data/todos.txt"%string) 1002 disk0
    = Some r /\
    r.1 = 0 /\ data_directory r.2 = DirPresent /\
    files (on_disk r.2) !! DEFAULT_FILENAME = None.
Proof.
  assert (is_Some (ctime0 1002)) as Hnow by (by eexists).
  destruct (X24_export_writes_one_file ctime0 sample2 (Some "data/todos.txt"%string)
              1002 disk0 Hnow sample2_exported)
    as (r & ls & E & _ & H1 & _ & _ & H2 & _ & H3).
  exists r. split; [exact E|]. split; [|split].
  - apply H1. eexists. split; [reflexivity|]. vm_compute. set_solver.
  - rewrite H3. reflexivity.
  - rewrite H2 by discriminate. reflexivity.
Defined.

(** * The status of a record *)

Lemma update_keeps_status t a d p now t1 t2 :
  update_title t a = inr t1 -> update_description t1 d = inr t2 ->
  status t1 = status t /\
  status (set_updated_at (update_priority t2 p) now) = status t.
Proof.
  intros Et Ed. apply update_title_spec in Et as [Et _].
  apply update_description_spec in Ed as [Ed _].
  assert (status t1 = status t) as E1 by (rewrite Et; reflexivity).
  split; [exact E1|]. rewrite <- E1, Ed. unfold update_priority.
  by destruct (_ && _).
Qed.

Lemma call_status l c :
  store_ok l -> Forall status_known (live l) ->
  Forall status_known (live (store (call l c))).
Proof.
  intros Hok Hall. destruct c as [t d p now|x t d p now|x|x now|x now]; cbn [call].
  - destruct (create_cases l t d p now) as [(m & -> & _)|(s & -> & Hroom & Hs & Hd)];
      [exact Hall|].
    rewrite create_live by done. apply Forall_app. split; [exact Hall|].
    repeat constructor.
  - unfold todo_update. destruct (todo_find_by_id l x) as [i|] eqn:Hfind; [|exact Hall].
    pose proof (Forall_live_slot _ l x i Hok Hfind Hall) as Hslot.
    destruct (update_title _ t) as [m|t1] eqn:Et; [exact Hall|].
    destruct (update_description _ d) as [m|t2] eqn:Ed; cbn [store];
      apply Forall_live_set_slot; try done.
    + apply update_title_spec in Et as [Et _]. unfold status_known in *.
      rewrite Et. exact Hslot.
    + destruct (update_keeps_status _ _ _ p now _ _ Et Ed) as [_ E].
      unfold status_known in *. rewrite E. exact Hslot.
  - destruct (todo_find_by_id l x) as [i|] eqn:Hfind;
      [|by rewrite delete_not_found].
    pose proof (delete_found l x i Hok Hfind) as H. cbv zeta in H.
    destruct H as (_ & _ & -> & _). by apply Forall_delete.
  - unfold todo_complete. destruct (todo_find_by_id l x) as [i|] eqn:Hfind; [|exact Hall].
    destruct (_ =? _); cbn [store]; [exact Hall|].
    apply Forall_live_set_slot; [exact Hall|]. by right.
  - unfold todo_mark_pending.
    destruct (todo_find_by_id l x) as [i|] eqn:Hfind; [|exact Hall].
    destruct (_ =? _); cbn [store]; [exact Hall|].
    apply Forall_live_set_slot; [exact Hall|]. by left.
Qed.

(** X26: the status of a live record never leaves the enum.  If every live
    record is Pending or Completed, it is so after every sequence of calls
    (create writes Pending, complete and mark-pending write their value,
    update leaves the status alone, delete only moves records), and the
    status is shown as "Pending" or "Completed", never as "Unknown". *)
Theorem X26_calls_keep_the_status_known cs : forall l,
  store_ok l -> Forall status_known (live l) ->
  Forall (fun t => status_known t /\
                   (get_status_string (status t) = "Pending" \/
                    get_status_string (status t) = "Completed"))
         (live (calls l cs)).
Proof.
  induction cs as [|c cs IH]; intros l Hok Hall.
  - cbn [calls]. eapply Forall_impl; [exact Hall|].
    intros t Ht. split; [exact Ht|]. destruct Ht as [-> | ->]; [by left|by right].
  - cbn [calls]. apply IH; [by apply call_ok|by apply call_status].
Qed.

Lemma X26_witness :
  Forall (fun t => status_known t /\
                   (get_status_string (status t) = "Pending" \/
                    get_status_string (status t) = "Completed"))
         (live (calls fresh0 busy_day)).
Proof.
  apply (X26_calls_keep_the_status_known busy_day fresh0 fresh0_ok).
  change (live fresh0) with (@nil Todo). constructor.
Defined.

(** * A session: calls, then save, then a new start *)

Lemma saved_store_loads_back l filename fs heap :
  store_ok l -> capacity l = MAX_TODOS -> in_int (next_id l) ->
  Forall todo_fits (live l) ->
  default DEFAULT_FILENAME filename ∉ locked fs ->
  let saved := save_todos_to_file l filename fs in
  let loaded := load heap filename saved.2 in
  saved.1 = 0 /\ loaded.1 = 0 /\
  count loaded.2 = count l /\ next_id loaded.2 = next_id l /\
  live loaded.2 = live l.
Proof.
  intros Hok Hcap Hnext Hfit Hfree.
  pose proof (length_live l Hok) as Hlen. destruct Hok as [H0 H1 H2 H3].
  pose proof (save_written l filename fs Hfree) as Hsave. cbv zeta in Hsave.
  destruct Hsave as [Hr Hfile]. cbv zeta. split; [exact Hr|].
  assert (in_int (count l)) as Hcount by c_bounds.
  unfold load, load_todos_from_file. cbv zeta.
  unfold file_exists. rewrite Hfile.
  rewrite bool_decide_true by eauto. cbn [negb default from_option Datatypes.id].
  set (items := if count l >? 0 then concat (map encode_todo (live l)) else []).
  destruct (Nat.ltb_spec
              (length (encode_int (count l) ++ encode_int (next_id l) ++ items))
              (2 * SIZEOF_INT)) as [Hshort|_].
  { rewrite !length_app, !length_encode_int in Hshort.
    unfold SIZEOF_INT in Hshort. lia. }
  rewrite field_first by apply length_encode_int.
  rewrite field_here by apply length_encode_int.
  rewrite !decode_encode_int by done.
  destruct (Z.ltb_spec (count l) 0) as [?|_]; [lia|].
  destruct (Z.gtb_spec (count l) MAX_TODOS) as [?|_]; [lia|].
  cbn [orb].
  assert ((if count l >? 0
           then fread_todos
                  (drop 8 (encode_int (count l) ++ encode_int (next_id l) ++ items))
                  (Z.to_nat (count l))
           else []) = live l) as ->.
  { subst items. destruct (Z.gtb_spec (count l) 0) as [Hpos|Hzero].
    - rewrite app_assoc, drop_app_length'
        by (rewrite length_app, !length_encode_int; reflexivity).
      rewrite <- (app_nil_r (concat _)).
      replace (Z.to_nat (count l)) with (length (live l)) by lia.
      by apply fread_todos_encoded.
    - destruct (live l); [reflexivity|]. simpl in Hlen. lia. }
  rewrite Hlen, Z.eqb_refl. cbn [negb fst snd count next_id].
  split; [reflexivity|]. split; [reflexivity|]. split; [reflexivity|].
  unfold live at 1. cbn [todos count].
  apply take_app_length'. lia.
Qed.

Lemma call_capacity l c : capacity (store (call l c)) = capacity l.
Proof.
  destruct c as [t d p now|x t d p now|x|x now|x now]; cbn [call].
  - unfold todo_create. destruct t as [s|]; [|reflexivity].
    repeat (match goal with |- context [if ?b then _ else _] => destruct b end;
            try reflexivity).
  - unfold todo_update. destruct (todo_find_by_id l x); [|reflexivity].
    destruct (update_title _ t); [reflexivity|].
    by destruct (update_description _ d).
  - unfold todo_delete. by destruct (find_loop _ _ _ _).
  - unfold todo_complete. destruct (todo_find_by_id l x); [|reflexivity].
    by destruct (_ =? _).
  - unfold todo_mark_pending. destruct (todo_find_by_id l x); [|reflexivity].
    by destruct (_ =? _).
Qed.

Lemma calls_in_layout cs : forall l,
  store_ok l -> in_int (next_id l) -> Forall todo_fits (todos l) ->
  Forall call_fits cs ->
  store_ok (calls l cs) /\ in_int (next_id (calls l cs)) /\
  Forall todo_fits (live (calls l cs)) /\ capacity (calls l cs) = capacity l.
Proof.
  induction cs as [|c cs IH]; intros l Hok Hn Hall Hcs.
  - split; [done|]. split; [done|]. split; [by apply Forall_take|reflexivity].
  - apply Forall_cons in Hcs as [Hc Hcs]. cbn [calls].
    destruct (call_fits_slots l c Hok Hn Hc Hall) as [Hall' Hn'].
    rewrite <- (call_capacity l c). apply IH; try done. by apply call_ok.
Qed.

(** X27: a session survives a restart.  Start from a list whose slots are
    in the file's layout (for instance a new list on zeroed memory), make any
    sequence of calls with priorities and times of their C types, save to a
    path that can be opened for writing, and load the file into a new list:
    both return 0, and the new list has the same count, the same next ID
    and the same live records, byte for byte and in the same order. *)
Theorem X27_session_survives_restart cs l filename fs heap :
  store_ok l -> capacity l = MAX_TODOS -> in_int (next_id l) ->
  Forall todo_fits (todos l) -> Forall call_fits cs ->
  default DEFAULT_FILENAME filename ∉ locked fs ->
  let after := calls l cs in
  let saved := save_todos_to_file after filename fs in
  let loaded := load heap filename saved.2 in
  saved.1 = 0 /\ loaded.1 = 0 /\
  count loaded.2 = count after /\ next_id loaded.2 = next_id after /\
  live loaded.2 = live after.
Proof.
  intros Hok Hcap Hn Hall Hcs Hfree.
  destruct (calls_in_layout cs l Hok Hn Hall Hcs) as (Hok' & Hn' & Hfit & Hcap').
  apply saved_store_loads_back; try done. by rewrite Hcap'.
Qed.

Lemma X27_witness :
  let after := calls fresh0 busy_day in
  let saved := save_todos_to_file after None fs0 in
  let loaded := load heap0 None saved.2 in
  saved.1 = 0 /\ loaded.1 = 0 /\
  count loaded.2 = count after /\ next_id loaded.2 = next_id after /\
  live loaded.2 = live after.
Proof.
  assert (capacity fresh0 = MAX_TODOS) as Hcap by by_evaluation.
  assert (in_int (next_id fresh0)) as Hn by by_evaluation.
  assert (default DEFAULT_FILENAME None ∉ locked fs0) as Hfree
    by (vm_compute; set_solver).
  exact (X27_session_survives_restart busy_day fresh0 None fs0 heap0
           fresh0_ok Hcap Hn heap0_fits busy_day_fits Hfree).
Defined.
